(** * gochatbot: the message dispatcher (bot/bot.go) and the Slack
      transport connection (providers/slack.go)

    The dispatcher is modelled as an interleaving small-step machine: the
    main receive loop and one task per inbound message, each goroutine
    advancing one statement at a time under an arbitrary schedule.  The
    Slack provider is modelled by state passing over [providerSlack], with
    the network (HTTP replies, dial results, socket writes) supplied as
    explicit inputs. *)

From Stdlib Require Import String Ascii List Arith Lia Bool.
From stdpp Require Import base option list gmap strings.

Local Open Scope string_scope.
Local Open Scope list_scope.

(** ** package messages *)

(** Modelled from the spec: the declaration of messages.Message that
    bot.go and slack.go are compiled against is not among the sources;
    src/unnamed/part_000 declares [Room], [FromUserID], [FromUserName] and
    [Message] only.  The record has the seven fields of the spec's data
    model (room, fromUserID, fromUserName, toUserID, toUserName, text,
    direct), which are the fields the composite literals name: bot.go:57-62
    fills [Room], [ToUserID], [ToUserName] and [Message]; slack.go:156-162
    fills [Room], [FromUserID], [FromUserName], [Message] and [Direct].
    The field the source calls [Message] is [Message_] here, since the
    record already bears that name. *)
Record Message := mkMessage {
  Room : string;
  FromUserID : string;
  FromUserName : string;
  ToUserID : string;
  ToUserName : string;
  Message_ : string;
  Direct : bool
}.

Definition nl : string := String "010"%char EmptyString.

(** fmt.Sprintln on string operands: a space between operands, a newline
    at the end. *)
Definition Sprintln (operands : list string) : string :=
  String.concat " " operands +:+ nl.

(** strings.HasPrefix s p *)
Definition HasPrefix (s p : string) : bool := String.prefix p s.

(** ** package bot *)

Module bot.

(** What a call into rule code can do: return, or panic with a value. *)
Inductive outcome (A : Type) : Type :=
| Returned (a : A)
| Panicked (v : string).
Arguments Returned {A} a.
Arguments Panicked {A} v.

Definition chan := nat.

(** bot.Self.  The two channels are references; their contents live in the
    machine state below. *)
Record Self (Memorizer R : Type) := mkSelf {
  name : string;
  providerIn : chan;
  providerOut : chan;
  rules : list R;
  brain : Memorizer
}.
Arguments mkSelf {Memorizer R}.
Arguments name {Memorizer R}.
Arguments providerIn {Memorizer R}.
Arguments providerOut {Memorizer R}.
Arguments rules {Memorizer R}.
Arguments brain {Memorizer R}.

(** Modelled from the spec: the RuleParser interface, whose declaration
    is not among the sources: parseMessage(botIdentity, Message) gives a
    sequence of Message, helpMessage(botIdentity) a string.  bot.go calls
    them as [rule.ParseMessage(self, msg)] and [rule.HelpMessage(self)],
    and recovers from a panic of the former (lines 67-71), so each call
    either returns or panics. *)
Class RuleParser (Memorizer R : Type) := {
  ParseMessage : R -> Self Memorizer R -> Message -> outcome (list Message);
  HelpMessage : R -> Self Memorizer R -> outcome string
}.

(** Option, a function on a pointer to Self: what it does to the struct. *)
Definition Option (Memorizer R : Type) : Type := Self Memorizer R -> Self Memorizer R.

(** bot.New: two fresh channels, no rules, then the options in order. *)
Definition New {Memorizer R} (nm : string) (memo : Memorizer)
    (opts : list (Option Memorizer R)) : Self Memorizer R :=
  fold_left (fun s opt => opt s) opts (mkSelf nm 0 1 [] memo).

Definition Name {Memorizer R} (s : Self Memorizer R) : string := name s.

Section Dispatcher.

Context {Memorizer R : Type} `{RP : RuleParser Memorizer R}.

Abbreviation Self := (Self Memorizer R).

(** The test of line 51. *)
Definition is_help (s : Self) (m : Message) : bool :=
  HasPrefix (Message_ m) (Name s +:+ " help").

(** The Message literal of lines 57-62. *)
Definition help_reply (msg : Message) (helpMsg : string) : Message :=
  mkMessage (Room msg) EmptyString EmptyString (FromUserID msg) (FromUserName msg) helpMsg false.

(** Program points of a per-message goroutine. *)
Inductive PC :=
| HelpInit
| HelpLoop (helpMsg : string) (rest : list R)
| RulesInit
| RulesLoop (rest : list R) (pending : list Message)
| Done
| Recovered (v : string)
| Died (v : string).

Record Task := mkTask {
  t_self : Self;
  t_msg : Message;
  t_pc : PC
}.

Inductive LogEntry :=
| LogStart
| LogPanicRecovered (msg : Message) (v : string).

(** The machine: the struct behind the pointer [s], what is still to
    arrive on [providerIn], the goroutines spawned so far (a task's index
    is its identity), what has been received from [providerOut] tagged by
    sender, the log, and whether an unrecovered panic has killed the
    process.  The channels are unbuffered: a send is one step, the
    rendezvous with the receiving end, and a task whose send is not taken
    is a task that is not scheduled. *)
Record Sys := mkSys {
  sbot : Self;
  inbox : list Message;
  tasks : list Task;
  outbox : list (nat * Message);
  logs : list LogEntry;
  crashed : bool
}.

Definition set_task (i : nat) (pc : PC) (s : Sys) : Sys :=
  match tasks s !! i with
  | Some t =>
      mkSys (sbot s) (inbox s) (<[i := mkTask (t_self t) (t_msg t) pc]> (tasks s))
            (outbox s) (logs s) (crashed s)
  | None => s
  end.

Definition send (i : nat) (m : Message) (s : Sys) : Sys :=
  mkSys (sbot s) (inbox s) (tasks s) (outbox s ++ [(i, m)]) (logs s) (crashed s).

Definition log (e : LogEntry) (s : Sys) : Sys :=
  mkSys (sbot s) (inbox s) (tasks s) (outbox s) (logs s ++ [e]) (crashed s).

Definition crash (s : Sys) : Sys :=
  mkSys (sbot s) (inbox s) (tasks s) (outbox s) (logs s) true.

(** One statement of goroutine [i]. *)
Definition step_task (i : nat) (t : Task) (s : Sys) : option Sys :=
  match t_pc t with
  | HelpInit =>
      Some (set_task i (HelpLoop (Sprintln ["available commands:"]) (rules (sbot s))) s)
  | HelpLoop helpMsg (rule :: rest) =>
      match HelpMessage rule (t_self t) with
      | Returned h => Some (set_task i (HelpLoop (Sprintln [helpMsg; h]) rest) s)
      | Panicked v => Some (crash (set_task i (Died v) s))
      end
  | HelpLoop helpMsg [] =>
      Some (set_task i Done (send i (help_reply (t_msg t) helpMsg) s))
  | RulesInit =>
      Some (set_task i (RulesLoop (rules (sbot s)) []) s)
  | RulesLoop rest (r :: pending) =>
      Some (set_task i (RulesLoop rest pending) (send i r s))
  | RulesLoop (rule :: rest) [] =>
      match ParseMessage rule (t_self t) (t_msg t) with
      | Returned responses => Some (set_task i (RulesLoop rest responses) s)
      | Panicked v =>
          Some (set_task i (Recovered v) (log (LogPanicRecovered (t_msg t) v) s))
      end
  | RulesLoop [] [] => Some (set_task i Done s)
  | Done | Recovered _ | Died _ => None
  end.

(** One iteration of [for in := range s.providerIn]: the goroutine gets
    [*s] and [in] by value. *)
Definition spawn (m : Message) (s : Sys) : Sys :=
  let pc := if is_help (sbot s) m then HelpInit else RulesInit in
  mkSys (sbot s) (tl (inbox s)) (tasks s ++ [mkTask (sbot s) m pc])
        (outbox s) (logs s) (crashed s).

Inductive Choice :=
| MainRecv
| Run (i : nat).

Definition step (c : Choice) (s : Sys) : option Sys :=
  if crashed s then None
  else match c with
       | MainRecv =>
           match inbox s with
           | [] => None
           | m :: _ => Some (spawn m s)
           end
       | Run i =>
           match tasks s !! i with
           | Some t => step_task i t s
           | None => None
           end
       end.

(** A schedule is a list of choices; choosing a goroutine that cannot move
    leaves the machine as it is. *)
Definition exec (c : Choice) (s : Sys) : Sys := default s (step c s).

Definition run (sched : list Choice) (s : Sys) : Sys :=
  fold_left (fun s c => exec c s) sched s.

(** The state in which the body of [processOnce.Do] starts. *)
Definition init (b : Self) (msgs : list Message) : Sys :=
  mkSys b msgs [] [] [LogStart] false.

Fixpoint emitted (i : nat) (out : list (nat * Message)) : list Message :=
  match out with
  | [] => []
  | (j, m) :: out' => if Nat.eqb j i then m :: emitted i out' else emitted i out'
  end.

Definition pc_of (i : nat) (s : Sys) : option PC := t_pc <$> tasks s !! i.

(** The lines that follow the heading in the help text: each help text
    after a space and before a newline. *)
Definition help_lines (hs : list string) : string :=
  String.concat EmptyString (map (fun h => " " +:+ h +:+ nl) hs).

Definition help_text (hs : list string) : string :=
  "available commands:" +:+ nl +:+ help_lines hs.

(** *** What a goroutine does when run to its end *)

Inductive Final :=
| FDone
| FRecovered (v : string)
| FCrashed (v : string).

Fixpoint help_loop (self : Self) (helpMsg : string) (rs : list R) : outcome string :=
  match rs with
  | [] => Returned helpMsg
  | rule :: rs' =>
      match HelpMessage rule self with
      | Returned h => help_loop self (Sprintln [helpMsg; h]) rs'
      | Panicked v => Panicked v
      end
  end.

Definition help_rest (self : Self) (msg : Message) (helpMsg : string) (rs : list R)
  : list Message * Final :=
  match help_loop self helpMsg rs with
  | Returned txt => ([help_reply msg txt], FDone)
  | Panicked v => ([], FCrashed v)
  end.

Fixpoint rules_loop (self : Self) (msg : Message) (rs : list R)
  : list Message * Final :=
  match rs with
  | [] => ([], FDone)
  | rule :: rs' =>
      match ParseMessage rule self msg with
      | Returned responses =>
          (responses ++ fst (rules_loop self msg rs'), snd (rules_loop self msg rs'))
      | Panicked v => ([], FRecovered v)
      end
  end.

Definition behaviour (b : Self) (m : Message) : list Message * Final :=
  if is_help b m
  then help_rest b m (Sprintln ["available commands:"]) (rules b)
  else rules_loop b m (rules b).

(** The program points at which a goroutine has ended, and how. *)
Definition terminal (pc : PC) : Prop :=
  match pc with
  | Done | Recovered _ | Died _ => True
  | _ => False
  end.

Definition final_of (pc : PC) : Final :=
  match pc with
  | Recovered v => FRecovered v
  | Died v => FCrashed v
  | _ => FDone
  end.

(** What task [t] still has to emit from where it stands, and how it
    will end. *)
Definition future (b : Self) (t : Task) : list Message * Final :=
  match t_pc t with
  | HelpInit => help_rest (t_self t) (t_msg t) (Sprintln ["available commands:"]) (rules b)
  | HelpLoop helpMsg rest => help_rest (t_self t) (t_msg t) helpMsg rest
  | RulesInit => rules_loop (t_self t) (t_msg t) (rules b)
  | RulesLoop rest pending =>
      (pending ++ fst (rules_loop (t_self t) (t_msg t) rest),
       snd (rules_loop (t_self t) (t_msg t) rest))
  | Done => ([], FDone)
  | Recovered v => ([], FRecovered v)
  | Died v => ([], FCrashed v)
  end.

(** The number of statements task [t] still has to run. *)
Fixpoint help_steps (self : Self) (rs : list R) : nat :=
  match rs with
  | [] => 1
  | rule :: rs' =>
      match HelpMessage rule self with
      | Returned _ => S (help_steps self rs')
      | Panicked _ => 1
      end
  end.

Fixpoint rules_steps (self : Self) (msg : Message) (rs : list R) : nat :=
  match rs with
  | [] => 1
  | rule :: rs' =>
      match ParseMessage rule self msg with
      | Returned responses => S (length responses + rules_steps self msg rs')
      | Panicked _ => 1
      end
  end.

Definition steps_left (b : Self) (t : Task) : nat :=
  match t_pc t with
  | HelpInit => S (help_steps (t_self t) (rules b))
  | HelpLoop _ rest => help_steps (t_self t) rest
  | RulesInit => S (rules_steps (t_self t) (t_msg t) (rules b))
  | RulesLoop rest pending => length pending + rules_steps (t_self t) (t_msg t) rest
  | Done | Recovered _ | Died _ => 0
  end.

(** A task stays on the branch of line 51 it was spawned on. *)
Definition pc_kind_ok (b : Self) (t : Task) : Prop :=
  match t_pc t with
  | HelpInit | HelpLoop _ _ | Died _ => is_help b (t_msg t) = true
  | RulesInit | RulesLoop _ _ | Recovered _ => is_help b (t_msg t) = false
  | Done => True
  end.

(** The invariant of the machine started on bot [b] and inbound messages
    [msgs]. *)
Record Inv (b : Self) (msgs : list Message) (s : Sys) : Prop := mkInv {
  inv_bot : sbot s = b;
  inv_msgs : map t_msg (tasks s) ++ inbox s = msgs;
  inv_task : forall i t, tasks s !! i = Some t ->
    t_self t = b /\ pc_kind_ok b t /\
    (emitted i (outbox s) ++ fst (future b t), snd (future b t)) = behaviour b (t_msg t);
  inv_out : forall j m, In (j, m) (outbox s) -> j < length (tasks s);
  inv_log : forall i t v, tasks s !! i = Some t -> t_pc t = Recovered v ->
    In (LogPanicRecovered (t_msg t) v) (logs s);
  inv_crash : crashed s = true ->
    exists i t v, tasks s !! i = Some t /\ t_pc t = Died v
}.

End Dispatcher.

(** *** The start-once guard *)

(** sync.Once: untouched, inside the one call of [f] (later callers wait on
    its mutex), or done. *)
Inductive Once :=
| OnceFresh
| OnceRunning
| OnceDone.

(** The package-level state around [Process]: the single [processOnce] of
    line 24, the instances whose receive loop has been started (an instance
    is named by a number), and the calls of [Process] that are waiting
    inside [processOnce.Do]. *)
Record Runtime := mkRuntime {
  processOnce : Once;
  looping : list nat;
  waiting : list nat
}.

Definition boot : Runtime := mkRuntime OnceFresh [] [].

(** [(s *Self) Process()] called on instance [b]. *)
Definition Process (b : nat) (w : Runtime) : Runtime :=
  match processOnce w with
  | OnceFresh => mkRuntime OnceRunning (looping w ++ [b]) (waiting w)
  | OnceRunning => mkRuntime OnceRunning (looping w) (waiting w ++ [b])
  | OnceDone => w
  end.

(** The running loop's [range s.providerIn] ends (the channel was closed):
    [Do] returns and releases the callers that waited. *)
Definition loop_exit (w : Runtime) : Runtime :=
  match processOnce w with
  | OnceRunning => mkRuntime OnceDone (looping w) []
  | _ => w
  end.

Inductive Op :=
| CallProcess (b : nat)
| InboundClosed.

Definition apply_op (w : Runtime) (o : Op) : Runtime :=
  match o with
  | CallProcess b => Process b w
  | InboundClosed => loop_exit w
  end.

Definition run_ops (ops : list Op) (w : Runtime) : Runtime :=
  fold_left apply_op ops w.

End bot.

(** ** package providers (slack.go) *)

Module providers.

(** A non-nil [error], by its message; [None] below is the nil error. *)
Definition error := string.

Definition slackEnvVarName : string := "GOCHATBOT_SLACK_TOKEN".

(** [%v] of an error value. *)
Definition fmt_v (e : option error) : string :=
  match e with
  | Some msg => msg
  | None => "<nil>"
  end.

(** A [*websocket.Conn]; [None] below is the nil pointer. *)
Definition Conn := nat.

(** providerSlack.  The channels [in] and [out] are the message lists the
    loops below take and return; the two mutexes guard single reads and
    writes and have no state of their own here. *)
Record providerSlack := mkSlack {
  token : string;
  wsURL : string;
  selfID : string;
  wsConn : option Conn;
  err : option error;
  usernames : gmap string string
}.

Definition set_wsURL (v : string) (p : providerSlack) : providerSlack :=
  mkSlack (token p) v (selfID p) (wsConn p) (err p) (usernames p).
Definition set_selfID (v : string) (p : providerSlack) : providerSlack :=
  mkSlack (token p) (wsURL p) v (wsConn p) (err p) (usernames p).
Definition set_wsConn (v : option Conn) (p : providerSlack) : providerSlack :=
  mkSlack (token p) (wsURL p) (selfID p) v (err p) (usernames p).
Definition set_err (v : option error) (p : providerSlack) : providerSlack :=
  mkSlack (token p) (wsURL p) (selfID p) (wsConn p) v (usernames p).
Definition set_usernames (v : gmap string string) (p : providerSlack) : providerSlack :=
  mkSlack (token p) (wsURL p) (selfID p) (wsConn p) (err p) v.

(** What the provider does to the outside world, in order. *)
Inductive Event :=
| EvLog (line : string)
| EvRtmStart (tok : string)
| EvUsersInfo (tok id : string)
| EvDial (url : string)
| EvProbe (ws : Conn)
| EvWrite (ws : Conn) (wsMsg : string)
| EvSleep.

(** State over [providerSlack] with the trace of events. *)
Definition M (A : Type) : Type := providerSlack -> A * providerSlack * list Event.

Definition ret {A} (a : A) : M A := fun p => (a, p, []).

Definition bind {A B} (m : M A) (k : A -> M B) : M B :=
  fun p =>
    let '(a, p1, e1) := m p in
    let '(b, p2, e2) := k a p1 in
    (b, p2, e1 ++ e2).

Definition get : M providerSlack := fun p => (p, p, []).
Definition modify (f : providerSlack -> providerSlack) : M unit := fun p => (tt, f p, []).
Definition emit (e : Event) : M unit := fun p => (tt, p, [e]).

Declare Scope slack_scope.
Delimit Scope slack_scope with slack.
Notation "x <- m ;; k" := (bind m (fun x => k))
  (at level 100, m at next level, right associativity) : slack_scope.
Notation "m ;; k" := (bind m (fun _ => k))
  (at level 100, right associativity) : slack_scope.
Local Open Scope slack_scope.

Definition state_of {A} (r : A * providerSlack * list Event) : providerSlack := snd (fst r).
Definition value_of {A} (r : A * providerSlack * list Event) : A := fst (fst r).
Definition trace_of {A} (r : A * providerSlack * list Event) : list Event := snd r.

(** The [ok] member is decoded into an [interface{}]: a JSON boolean, or
    anything else (absent, null, a number, a string, ...). *)
Inductive OKValue :=
| OKBool (b : bool)
| OKOther.

Record rtmStart := mkRtmStart {
  rs_OK : OKValue;
  rs_URL : string;
  rs_SelfID : string
}.

Record usersInfo := mkUsersInfo {
  ui_OK : OKValue;
  ui_Name : string
}.

(** What an [http.Get] followed by a JSON decode of the body comes to. *)
Inductive HttpReply (A : Type) :=
| GetFailed (e : error)
| DecodeFailed (e : error)
| Decoded (data : A).
Arguments GetFailed {A} e.
Arguments DecodeFailed {A} e.
Arguments Decoded {A} data.

Inductive DialResult :=
| DialFailed (e : error)
| DialOK (ws : Conn).

(** handshake, lines 84-116.  Past line 90 the variable [err] of line 86
    is nil; the [err] of line 99 is scoped to its [if]. *)
Definition handshake (reply : HttpReply rtmStart) : M unit :=
  emit (EvLog "slack: connecting to HTTP API handshake interface") ;;
  p <- get ;;
  emit (EvRtmStart (token p)) ;;
  match reply with
  | GetFailed e => modify (set_err (Some e))
  | DecodeFailed e => modify (set_err (Some e))
  | Decoded data =>
      let err : option error := None in
      match rs_OK data with
      | OKBool true =>
          modify (set_wsURL (rs_URL data)) ;;
          modify (set_selfID (rs_SelfID data))
      | OKBool false => modify (set_err err)
      | OKOther => modify (set_err err)
      end
  end.

(** dial, lines 118-132. *)
Definition dial (result : DialResult) : M unit :=
  emit (EvLog "slack: dialing to HTTP WS rtm interface") ;;
  p <- get ;;
  if String.eqb (wsURL p) EmptyString then
    modify (set_err (Some
      ("could not connnect to Slack HTTP WS rtm. please, check your connection and your token ("
       +:+ slackEnvVarName +:+ "). error: " +:+ fmt_v (err p))))
  else
    emit (EvDial (wsURL p)) ;;
    match result with
    | DialFailed e => modify (set_err (Some e))
    | DialOK ws => modify (set_wsConn (Some ws))
    end.

(** getUserName, lines 167-200. *)
Definition getUserName (id : string) (reply : HttpReply usersInfo) : M string :=
  p <- get ;;
  match usernames p !! id with
  | Some name => ret name
  | None =>
      emit (EvLog "slack: reading username from id") ;;
      emit (EvUsersInfo (token p) id) ;;
      match reply with
      | GetFailed _ =>
          emit (EvLog "slack: failed reading username - returning blank") ;;
          ret EmptyString
      | DecodeFailed _ =>
          emit (EvLog "slack: failed parsing username - returning blank") ;;
          ret EmptyString
      | Decoded data =>
          modify (fun p => set_usernames (<[id := ui_Name data]> (usernames p)) p) ;;
          emit (EvLog ("slack: " +:+ id +:+ " is " +:+ ui_Name data)) ;;
          p' <- get ;;
          ret (default EmptyString (usernames p' !! id))
      end
  end.

(** A run of calls of getUserName, each with the reply users.info would
    give it. *)
Fixpoint resolve_all (calls : list (string * HttpReply usersInfo)) : M (list string) :=
  match calls with
  | [] => ret []
  | (id, reply) :: calls' =>
      name <- getUserName id reply ;;
      names <- resolve_all calls' ;;
      ret (name :: names)
  end.

(** The number of users.info requests for [id] in a trace. *)
Fixpoint lookups (id : string) (tr : list Event) : nat :=
  match tr with
  | [] => 0
  | EvUsersInfo _ id' :: tr' => (if String.eqb id' id then 1 else 0) + lookups id tr'
  | _ :: tr' => lookups id tr'
  end.

Definition succeeded {A} (reply : HttpReply A) : bool :=
  match reply with
  | Decoded _ => true
  | _ => false
  end.

(** One decoded inbound frame. *)
Record inFrame := mkInFrame {
  in_Type : string;
  in_Channel : string;
  in_UserID : string;
  in_Text : string
}.

Inductive Decode :=
| DecodeError
| DecodeOK (data : inFrame).

(** One iteration of intakeLoop, lines 136-164: the message put on [p.in],
    if any.  [reply] is what users.info answers should it be asked. *)
Definition intake (frame : Decode) (reply : HttpReply usersInfo) : M (option Message) :=
  match frame with
  | DecodeError => ret None
  | DecodeOK data =>
      if negb (String.eqb (in_Type data) "message") then ret None
      else
        fromUserName <- getUserName (in_UserID data) reply ;;
        ret (Some (mkMessage (in_Channel data) (in_UserID data) fromUserName
                             EmptyString EmptyString (in_Text data)
                             (HasPrefix (in_Channel data) "D")))
  end.

Fixpoint intakeLoop (frames : list (Decode * HttpReply usersInfo)) : M (list Message) :=
  match frames with
  | [] => ret []
  | (frame, reply) :: frames' =>
      m <- intake frame reply ;;
      ms <- intakeLoop frames' ;;
      ret (match m with Some msg => msg :: ms | None => ms end)
  end.

(** The outbound frame of lines 213-218. *)
Record outFrame := mkOutFrame {
  out_Type : string;
  out_User : string;
  out_Channel : string;
  out_Text : string
}.

(** [template.Must(template.New("tmpl").Parse(text))] panics on a text
    that is no template; [Execute] writes into the buffer and its error is
    not looked at. *)
Inductive Render :=
| ParsePanic (v : string)
| Rendered (finalMsg : string).

(** The library calls of dispatchLoop: html/template parse-and-execute of
    a text with the [User] member of the data, html.UnescapeString,
    json.Marshal of the frame, strings.TrimSpace. *)
Class GoLib := {
  template_Execute : string -> string -> Render;
  html_UnescapeString : string -> string;
  json_Marshal : outFrame -> option string;
  strings_TrimSpace : string -> string
}.

Inductive Dispatched :=
| Dropped
| Wrote (ws : Conn) (wsMsg : string)
| DispatchPanic (v : string).

Section Dispatch.

Context `{GL : GoLib}.

(** The frame built at lines 213-218 from the rendered text. *)
Definition frame_of (p : providerSlack) (msg : Message) (finalMsg : string) : outFrame :=
  mkOutFrame "message" (selfID p) (Room msg) (html_UnescapeString finalMsg).

(** One iteration of dispatchLoop, lines 204-238. *)
Definition dispatch (msg : Message) (p : providerSlack) : Dispatched :=
  match template_Execute (Message_ msg) ("<@" +:+ ToUserID msg +:+ ">") with
  | ParsePanic v => DispatchPanic v
  | Rendered finalMsg =>
      if String.eqb (strings_TrimSpace finalMsg) EmptyString then Dropped
      else
        match json_Marshal (frame_of p msg finalMsg) with
        | None => Dropped
        | Some wsMsg =>
            if Nat.ltb (16 * 1024) (String.length wsMsg) then Dropped
            else
              match wsConn p with
              | Some ws => Wrote ws wsMsg
              | None => DispatchPanic "invalid memory address or nil pointer dereference"
              end
        end
  end.

Fixpoint dispatchLoop (out : list Message) : M unit :=
  match out with
  | [] => ret tt
  | msg :: out' =>
      p <- get ;;
      match dispatch msg p with
      | Dropped => dispatchLoop out'
      | Wrote ws wsMsg =>
          emit (EvWrite ws wsMsg) ;;
          emit EvSleep ;;
          dispatchLoop out'
      | DispatchPanic v => emit (EvLog ("panic: " +:+ v))
      end
  end.

End Dispatch.

(** One period of the supervisor: whether the liveness write fails, and
    what a handshake and a dial made in this period would meet. *)
Record Tick := mkTick {
  probe : option error;
  tick_handshake : HttpReply rtmStart;
  tick_dial : DialResult
}.

Inductive Supervisor :=
| Supervising
| Stopped.

(** reconnect, lines 241-260, over the periods given. *)
Fixpoint reconnect (ticks : list Tick) : M Supervisor :=
  match ticks with
  | [] => ret Supervising
  | t :: ticks' =>
      emit EvSleep ;;
      p <- get ;;
      match wsConn p with
      | None =>
          emit (EvLog "slack: cannot reconnect") ;;
          ret Stopped
      | Some ws =>
          emit (EvProbe ws) ;;
          match probe t with
          | Some e =>
              emit (EvLog ("slack: reconnecting (" +:+ e +:+ ")")) ;;
              handshake (tick_handshake t) ;;
              dial (tick_dial t) ;;
              reconnect ticks'
          | None => reconnect ticks'
          end
      end
  end.

(** The goroutines [Slack] starts. *)
Record Started := mkStarted {
  intake_started : bool;
  dispatch_started : bool;
  reconnect_started : bool
}.

(** Slack, lines 55-70. *)
Definition Slack (tok : string) (hs : HttpReply rtmStart) (dl : DialResult)
  : Started * providerSlack * list Event :=
  (handshake hs ;;
   dial dl ;;
   slack <- get ;;
   match err slack with
   | None => ret (mkStarted true true true)
   | Some _ => ret (mkStarted false false true)
   end) (mkSlack tok EmptyString EmptyString None None ∅).

(** Error, lines 80-82. *)
Definition Error (p : providerSlack) : option error := err p.

(** The constructor that init, lines 28-37, appends to the available
    providers: the provider, if any, and whether there is one.  [getenv]
    is the environment. *)
Definition init_provider (getenv : string -> string)
    (hs : HttpReply rtmStart) (dl : DialResult)
  : option (Started * providerSlack) * bool * list Event :=
  let token := getenv slackEnvVarName in
  if String.eqb token EmptyString then
    (None, false,
     [EvLog (String.concat " "
        ["providers: skipping Slack. if you want Slack enabled, please set a valid value for the environment variables";
         slackEnvVarName])])
  else
    (Some (value_of (Slack token hs dl), state_of (Slack token hs dl)), true,
     trace_of (Slack token hs dl)).

(** The number of rtm.start requests, and of socket dials, in a trace. *)
Fixpoint handshakes (tr : list Event) : nat :=
  match tr with
  | [] => 0
  | EvRtmStart _ :: tr' => S (handshakes tr')
  | _ :: tr' => handshakes tr'
  end.

Fixpoint dials (tr : list Event) : nat :=
  match tr with
  | [] => 0
  | EvDial _ :: tr' => S (dials tr')
  | _ :: tr' => dials tr'
  end.

(** The periods in which the liveness write fails. *)
Fixpoint failed_probes (ticks : list Tick) : nat :=
  match ticks with
  | [] => 0
  | t :: ticks' =>
      match probe t with
      | Some _ => S (failed_probes ticks')
      | None => failed_probes ticks'
      end
  end.

(** The frames intakeLoop does not skip, lines 148-154. *)
Definition accepted (frame : Decode) : option inFrame :=
  match frame with
  | DecodeError => None
  | DecodeOK data => if String.eqb (in_Type data) "message" then Some data else None
  end.

End providers.

(** ** A concrete rule set and concrete library functions

    Used to run the definitions above on inputs. *)

Module demo.

Import bot providers.

(** Three rules: one that echoes, one that answers twice, one whose
    ParseMessage panics; and one whose HelpMessage panics. *)
Inductive rule :=
| Echo
| Twice
| Faulty
| NoHelp.

Definition reply_to (msg : Message) (text : string) : Message :=
  mkMessage (Room msg) EmptyString EmptyString (FromUserID msg) (FromUserName msg) text false.

#[export] Instance rule_parser : RuleParser unit rule := {
  ParseMessage r self msg :=
    match r with
    | Echo => Returned [reply_to msg (Message_ msg)]
    | Twice => Returned [reply_to msg "one"; reply_to msg "two"]
    | Faulty => Panicked "index out of range"
    | NoHelp => Returned []
    end;
  HelpMessage r self :=
    match r with
    | Echo => Returned "echo: repeats your message"
    | Twice => Returned "twice: answers twice"
    | Faulty => Returned "faulty: panics"
    | NoHelp => Panicked "no help"
    end
}.

(** An option that registers rules. *)
Definition with_rules (rs : list rule) : Option unit rule :=
  fun s => mkSelf (name s) (providerIn s) (providerOut s) (rules s ++ rs) (brain s).

Definition bender (rs : list rule) : Self unit rule := New "bender" tt [with_rules rs].

Definition help_request : Message :=
  mkMessage "C1" "U1" "alice" EmptyString EmptyString "bender help" false.

Definition hello : Message :=
  mkMessage "C1" "U1" "alice" EmptyString EmptyString "hello" false.

Definition dq : string := String "034"%char EmptyString.
Definition bs : string := String "092"%char EmptyString.

(** strings.TrimSpace on ASCII text: tab, line feed, vertical tab, form
    feed, carriage return and space are white space. *)
Definition isSpace (c : ascii) : bool :=
  match nat_of_ascii c with
  | 9 | 10 | 11 | 12 | 13 | 32 => true
  | _ => false
  end.

Fixpoint trim_left (s : string) : string :=
  match s with
  | EmptyString => EmptyString
  | String c s' => if isSpace c then trim_left s' else s
  end.

Definition rev_string (s : string) : string :=
  string_of_list_ascii (rev (list_ascii_of_string s)).

Definition TrimSpace (s : string) : string :=
  rev_string (trim_left (rev_string (trim_left s))).

Definition drop_string (n : nat) (s : string) : string :=
  String.substring n (String.length s - n) s.

(** html.UnescapeString on the character references listed. *)
Definition entities : list (string * string) :=
  [("&lt;", "<"); ("&gt;", ">"); ("&amp;", "&"); ("&#34;", dq); ("&quot;", dq);
   ("&#39;", "'"); ("&#43;", "+"); ("&#32;", " ")].

Definition entity_at (s : string) : option (string * string) :=
  List.find (fun e => String.prefix (fst e) s) entities.

Fixpoint unescape_fuel (fuel : nat) (s : string) : string :=
  match fuel with
  | 0 => s
  | S fuel' =>
      match s with
      | EmptyString => EmptyString
      | String c s' =>
          match entity_at s with
          | Some (ref, text) => text +:+ unescape_fuel fuel' (drop_string (String.length ref) s)
          | None => String c (unescape_fuel fuel' s')
          end
      end
  end.

Definition UnescapeString (s : string) : string := unescape_fuel (String.length s) s.

(** The escaping html/template applies to a string printed in HTML text. *)
Definition html_escape_char (c : ascii) : string :=
  match nat_of_ascii c with
  | 34 => "&#34;"
  | 38 => "&amp;"
  | 39 => "&#39;"
  | 43 => "&#43;"
  | 60 => "&lt;"
  | 62 => "&gt;"
  | _ => String c EmptyString
  end.

Fixpoint html_escape (s : string) : string :=
  match s with
  | EmptyString => EmptyString
  | String c s' => html_escape_char c +:+ html_escape s'
  end.

(** html/template on a text whose only action is [{{.User}}] and that
    holds no markup: the action is replaced by the escaped member, any
    other action is refused by the parser, the rest is copied. *)
Fixpoint execute_fuel (fuel : nat) (text user : string) : Render :=
  match fuel with
  | 0 => Rendered text
  | S fuel' =>
      match text with
      | EmptyString => Rendered EmptyString
      | String c text' =>
          if String.prefix "{{.User}}" text then
            match execute_fuel fuel' (drop_string 9 text) user with
            | Rendered out => Rendered (html_escape user +:+ out)
            | ParsePanic v => ParsePanic v
            end
          else if String.prefix "{{" text then
            ParsePanic "template: tmpl:1: unexpected action"
          else
            match execute_fuel fuel' text' user with
            | Rendered out => Rendered (String c out)
            | ParsePanic v => ParsePanic v
            end
      end
  end.

Definition Execute (text user : string) : Render :=
  execute_fuel (String.length text) text user.

(** json.Marshal of the frame, on ASCII text: the quote and the backslash
    are escaped, and so are [<], [>] and [&]. *)
Definition json_char (c : ascii) : string :=
  match nat_of_ascii c with
  | 34 => bs +:+ dq
  | 92 => bs +:+ bs
  | 10 => bs +:+ "n"
  | 13 => bs +:+ "r"
  | 9 => bs +:+ "t"
  | 60 => bs +:+ "u003c"
  | 62 => bs +:+ "u003e"
  | 38 => bs +:+ "u0026"
  | _ => String c EmptyString
  end.

Fixpoint json_escape (s : string) : string :=
  match s with
  | EmptyString => EmptyString
  | String c s' => json_char c +:+ json_escape s'
  end.

Definition json_string (s : string) : string := dq +:+ json_escape s +:+ dq.

Definition Marshal (f : outFrame) : option string :=
  Some ("{" +:+ dq +:+ "type" +:+ dq +:+ ":" +:+ json_string (out_Type f)
        +:+ "," +:+ dq +:+ "user" +:+ dq +:+ ":" +:+ json_string (out_User f)
        +:+ "," +:+ dq +:+ "channel" +:+ dq +:+ ":" +:+ json_string (out_Channel f)
        +:+ "," +:+ dq +:+ "text" +:+ dq +:+ ":" +:+ json_string (out_Text f) +:+ "}").

#[export] Instance go_lib : providers.GoLib := {
  providers.template_Execute := Execute;
  providers.html_UnescapeString := UnescapeString;
  providers.json_Marshal := Marshal;
  providers.strings_TrimSpace := TrimSpace
}.

End demo.

(** * Properties of the dispatcher *)

Module BotProofs.

Import bot.

Lemma append_assoc (a b c : string) : (a +:+ b) +:+ c = a +:+ (b +:+ c).
Proof.
  induction a as [|ch a IH]; [reflexivity|].
  change (String ch ((a +:+ b) +:+ c) = String ch (a +:+ b +:+ c)).
  now rewrite IH.
Qed.

Lemma Sprintln_two (a h : string) : Sprintln [a; h] = a +:+ " " +:+ h +:+ nl.
Proof.
  unfold Sprintln. change (String.concat " " [a; h]) with (a +:+ " " +:+ h).
  now rewrite !append_assoc.
Qed.

Section Facts.

Context {Memorizer R : Type} `{RP : RuleParser Memorizer R}.

Abbreviation Self := (Self Memorizer R).
Abbreviation Sys := (@Sys Memorizer R).
Abbreviation Task := (@Task Memorizer R).
Abbreviation PC := (@PC R).

Implicit Types (b : Self) (s : Sys) (t : Task) (pc : PC) (m : Message).

Lemma emitted_app i (o1 o2 : list (nat * Message)) :
  emitted i (o1 ++ o2) = emitted i o1 ++ emitted i o2.
Proof.
  induction o1 as [|[j m] o1 IH]; simpl; [reflexivity|].
  destruct (Nat.eqb j i); simpl; now rewrite IH.
Qed.

Lemma emitted_tagged_same i (ms : list Message) :
  emitted i (map (pair i) ms) = ms.
Proof.
  induction ms as [|m ms IH]; simpl; [reflexivity|].
  now rewrite Nat.eqb_refl, IH.
Qed.

Lemma emitted_tagged_other i j (ms : list Message) :
  j <> i -> emitted j (map (pair i) ms) = [].
Proof.
  intros Hne. induction ms as [|m ms IH]; simpl; [reflexivity|].
  destruct (Nat.eqb_spec i j); [congruence | exact IH].
Qed.

Lemma emitted_fresh n (out : list (nat * Message)) :
  (forall j m, In (j, m) out -> j < n) -> emitted n out = [].
Proof.
  induction out as [|[j m] out IH]; simpl; intros Hb; [reflexivity|].
  destruct (Nat.eqb_spec j n) as [->|_].
  - specialize (Hb n m (or_introl eq_refl)). lia.
  - apply IH. intros j' m' Hin. apply (Hb j' m'). now right.
Qed.

(** Every statement of a task is of one shape: the task's own entry is
    rewritten, what it sends is appended to the outbox under its index,
    and it may log one line or kill the process. *)
Lemma step_task_nf i t s s' :
  tasks s !! i = Some t ->
  step_task i t s = Some s' ->
  exists pc' sent lg,
    let t' := mkTask (t_self t) (t_msg t) pc' in
    sbot s' = sbot s /\ inbox s' = inbox s /\
    tasks s' = <[i := t']> (tasks s) /\
    outbox s' = outbox s ++ map (pair i) sent /\
    logs s' = logs s ++ lg /\
    crashed s' = (crashed s || match pc' with Died _ => true | _ => false end) /\
    fst (future (sbot s) t) = sent ++ fst (future (sbot s) t') /\
    snd (future (sbot s) t) = snd (future (sbot s) t') /\
    steps_left (sbot s) t = S (steps_left (sbot s) t') /\
    (pc_kind_ok (sbot s) t -> pc_kind_ok (sbot s) t') /\
    (forall v, pc' = Recovered v -> lg = [LogPanicRecovered (t_msg t) v]) /\
    (lg = [] \/ exists v, pc' = Recovered v).
Proof.
  intros Hi Hstep. unfold step_task in Hstep.
  destruct t as [self msg pc]; simpl in *.
  destruct pc as [|helpMsg rest| |rest pending| | |]; try discriminate.
  - (* HelpInit *)
    injection Hstep as <-.
    exists (HelpLoop (Sprintln ["available commands:"]) (rules (sbot s))), [], [].
    unfold set_task; rewrite Hi; simpl.
    rewrite !app_nil_r, orb_false_r. unfold future, steps_left, pc_kind_ok; simpl.
    repeat split; auto; try discriminate.
  - (* HelpLoop *)
    destruct rest as [|rule rest].
    + injection Hstep as <-.
      exists Done, [help_reply msg helpMsg], [].
      unfold set_task; simpl; rewrite Hi; simpl.
      rewrite !app_nil_r, orb_false_r. unfold future, steps_left, pc_kind_ok, help_rest; simpl.
      repeat split; auto; try discriminate.
    + destruct (HelpMessage rule self) as [h|v] eqn:Hh; injection Hstep as <-.
      * exists (HelpLoop (Sprintln [helpMsg; h]) rest), [], [].
        unfold set_task; rewrite Hi; simpl.
        rewrite !app_nil_r, orb_false_r.
        unfold future, steps_left, pc_kind_ok, help_rest; simpl. rewrite Hh.
        repeat split; auto; try discriminate.
      * exists (Died v), [], [].
        unfold crash, set_task; rewrite Hi; simpl.
        rewrite !app_nil_r, orb_true_r.
        unfold future, steps_left, pc_kind_ok, help_rest; simpl. rewrite Hh.
        repeat split; auto; try discriminate.
  - (* RulesInit *)
    injection Hstep as <-.
    exists (RulesLoop (rules (sbot s)) []), [], [].
    unfold set_task; rewrite Hi; simpl.
    rewrite !app_nil_r, orb_false_r. unfold future, steps_left, pc_kind_ok; simpl.
    repeat split; auto; try discriminate.
  - (* RulesLoop *)
    destruct pending as [|r pending].
    + destruct rest as [|rule rest].
      * injection Hstep as <-.
        exists Done, [], [].
        unfold set_task; rewrite Hi; simpl.
        rewrite !app_nil_r, orb_false_r. unfold future, steps_left, pc_kind_ok; simpl.
        repeat split; auto; try discriminate.
      * destruct (ParseMessage rule self msg) as [responses|v] eqn:Hp; injection Hstep as <-.
        -- exists (RulesLoop rest responses), [], [].
           unfold set_task; rewrite Hi; simpl.
           rewrite !app_nil_r, orb_false_r.
           unfold future, steps_left, pc_kind_ok; simpl. rewrite Hp; simpl.
           repeat split; auto; try discriminate.
        -- exists (Recovered v), [], [LogPanicRecovered msg v].
           unfold set_task; simpl; rewrite Hi; simpl.
           rewrite !app_nil_r, orb_false_r.
           unfold future, steps_left, pc_kind_ok; simpl. rewrite Hp; simpl.
           repeat split; auto; try discriminate.
           ++ now intros v0 [= <-].
           ++ right. now exists v.
    + assert (Hs : s' = set_task i (RulesLoop rest pending) (send i r s))
        by (destruct rest; now injection Hstep as <-).
      subst s'. clear Hstep.
      exists (RulesLoop rest pending), [r], [].
      unfold set_task; simpl; rewrite Hi; simpl.
      rewrite !app_nil_r, orb_false_r.
      unfold future, steps_left, pc_kind_ok; simpl.
      repeat split; auto; try discriminate.
Qed.

Lemma help_steps_pos (self : Self) rs : 0 < help_steps self rs.
Proof. destruct rs as [|r rs]; simpl; [lia|]. destruct (HelpMessage r self); lia. Qed.

Lemma rules_steps_pos (self : Self) m rs : 0 < rules_steps self m rs.
Proof. destruct rs as [|r rs]; simpl; [lia|]. destruct (ParseMessage r self m); lia. Qed.

Lemma steps_left_terminal b t : steps_left b t = 0 <-> terminal (t_pc t).
Proof.
  unfold steps_left. destruct (t_pc t) as [|h rest| |rest pending| | |]; simpl;
    try (split; [discriminate | contradiction]); try tauto.
  - pose proof (help_steps_pos (t_self t) rest). split; [lia | contradiction].
  - pose proof (rules_steps_pos (t_self t) (t_msg t) rest). split; [lia | contradiction].
Qed.

Lemma step_task_terminal i t s : terminal (t_pc t) -> step_task i t s = None.
Proof. unfold step_task. destruct (t_pc t); simpl; now intros. Qed.

Lemma step_task_enabled i t s :
  ~ terminal (t_pc t) -> exists s', step_task i t s = Some s'.
Proof.
  unfold step_task. destruct (t_pc t) as [|h rest| |rest pending| | |]; simpl;
    intros Hnt; try (exfalso; now apply Hnt); eauto.
  - destruct rest as [|r rest]; eauto. destruct (HelpMessage r (t_self t)); eauto.
  - destruct rest as [|r rest], pending as [|p pending]; eauto.
    destruct (ParseMessage r (t_self t) (t_msg t)); eauto.
Qed.

Lemma Inv_init b msgs : Inv b msgs (init b msgs).
Proof.
  constructor; simpl; easy.
Qed.

Lemma Inv_spawn b msgs s m ms :
  Inv b msgs s -> crashed s = false -> inbox s = m :: ms -> Inv b msgs (spawn m s).
Proof.
  intros [Hb Hm Ht Ho Hl Hc] Hcr Hin.
  constructor; unfold spawn; simpl.
  - exact Hb.
  - rewrite Hin; simpl. rewrite map_app, <- app_assoc; simpl. now rewrite <- Hin.
  - intros i t Hi. apply lookup_snoc_Some in Hi as [[_ Hi]|[-> <-]]; [now apply Ht|].
    simpl. rewrite Hb. split; [reflexivity|].
    rewrite (emitted_fresh _ _ Ho); simpl.
    unfold pc_kind_ok, future, behaviour; simpl.
    destruct (is_help b m) eqn:Hh; simpl; rewrite ?Hh; split; auto;
      symmetry; apply surjective_pairing.
  - intros j m' Hj. rewrite length_app; simpl. specialize (Ho j m' Hj). lia.
  - intros i t v Hi Hpc. apply lookup_snoc_Some in Hi as [[_ Hi]|[-> <-]];
      [exact (Hl i t v Hi Hpc)|].
    simpl in Hpc. now destruct (is_help (sbot s) m).
  - intros Hc'. congruence.
Qed.

Lemma Inv_step_task b msgs s s' i t :
  Inv b msgs s -> crashed s = false -> tasks s !! i = Some t ->
  step_task i t s = Some s' -> Inv b msgs s'.
Proof.
  intros [Hb Hm Ht Ho Hl Hc] Hcr Hi Hstep.
  destruct (step_task_nf _ _ _ _ Hi Hstep)
    as (pc' & sent & lg & Hb' & Hin' & Ht' & Ho' & Hl' & Hc' & Hf1 & Hf2 & _ & Hk & Hlg & _).
  simpl in *. rewrite Hb in *.
  pose proof (lookup_lt_Some _ _ _ Hi) as Hlt.
  destruct (Ht i t Hi) as (Hself & Hkind & Heq).
  constructor.
  - congruence.
  - rewrite Ht', Hin', <- Hm. f_equal.
    rewrite list_fmap_insert; simpl. apply list_insert_id.
    rewrite list_lookup_fmap, Hi. reflexivity.
  - intros j tj Hj. rewrite Ht' in Hj. rewrite Ho', emitted_app.
    apply list_lookup_insert_Some in Hj as [(<- & <- & _)|(Hne & Hj)].
    + simpl. split; [exact Hself|]. split; [now apply Hk|].
      rewrite emitted_tagged_same, <- Heq, <- app_assoc, <- Hf1, <- Hf2. reflexivity.
    + rewrite emitted_tagged_other by congruence. rewrite app_nil_r. now apply Ht.
  - intros j m Hj. rewrite Ht', length_insert. rewrite Ho' in Hj.
    apply in_app_or in Hj as [Hj|Hj]; [now apply (Ho j m)|].
    apply in_map_iff in Hj as (m' & [= <- <-] & _). exact Hlt.
  - intros j tj v Hj Hpc. rewrite Ht' in Hj. rewrite Hl'. apply in_or_app.
    apply list_lookup_insert_Some in Hj as [(<- & <- & _)|(Hne & Hj)].
    + right. simpl in *. rewrite (Hlg v Hpc). now left.
    + left. now apply (Hl j tj v).
  - intros Hd. rewrite Hc', Hcr in Hd; simpl in Hd.
    destruct pc' as [| | | | | |v]; try discriminate.
    exists i, (mkTask (t_self t) (t_msg t) (Died v)), v. split; [|reflexivity].
    rewrite Ht'. now apply list_lookup_insert_eq.
Qed.

Lemma Inv_exec b msgs c s : Inv b msgs s -> Inv b msgs (exec c s).
Proof.
  intros HI. unfold exec, step.
  destruct (crashed s) eqn:Hcr; [exact HI|].
  destruct c as [|i].
  - destruct (inbox s) as [|m ms] eqn:Hin; [exact HI|]. simpl.
    now apply (Inv_spawn b msgs s m ms).
  - destruct (tasks s !! i) as [t|] eqn:Hi; [|exact HI].
    destruct (step_task i t s) as [s'|] eqn:Hs; [|exact HI]. simpl.
    now apply (Inv_step_task b msgs s s' i t).
Qed.

Lemma Inv_run b msgs sched s : Inv b msgs s -> Inv b msgs (run sched s).
Proof.
  revert s. induction sched as [|c sched IH]; intros s HI; [exact HI|].
  simpl. apply IH. now apply Inv_exec.
Qed.

Lemma Inv_reach b msgs sched : Inv b msgs (run sched (init b msgs)).
Proof. apply Inv_run, Inv_init. Qed.

Lemma run_app sched1 sched2 s : run (sched1 ++ sched2) s = run sched2 (run sched1 s).
Proof. unfold run. apply fold_left_app. Qed.

Lemma exec_crashed c s : crashed s = true -> exec c s = s.
Proof. intros Hc. unfold exec, step. now rewrite Hc. Qed.

Lemma run_crashed sched s : crashed s = true -> run sched s = s.
Proof.
  induction sched as [|c sched IH]; intros Hc; [reflexivity|].
  simpl. rewrite exec_crashed by exact Hc. now apply IH.
Qed.

Lemma exec_Run i t s :
  crashed s = false -> tasks s !! i = Some t ->
  exec (Run i) s = default s (step_task i t s).
Proof. intros Hc Hi. unfold exec, step. now rewrite Hc, Hi. Qed.

(** A task that has ended stays as it is, whatever runs next. *)
Lemma terminal_exec c i t s :
  tasks s !! i = Some t -> terminal (t_pc t) -> tasks (exec c s) !! i = Some t.
Proof.
  intros Hi Hterm. unfold exec, step.
  destruct (crashed s); [exact Hi|].
  destruct c as [|j].
  - destruct (inbox s) as [|m ms]; [exact Hi|]. simpl. now apply lookup_app_l_Some.
  - destruct (tasks s !! j) as [tj|] eqn:Hj; [|exact Hi].
    destruct (step_task j tj s) as [s'|] eqn:Hs; [|exact Hi]. simpl.
    destruct (step_task_nf _ _ _ _ Hj Hs) as (pc' & sent & lg & _ & _ & Ht' & _).
    simpl in Ht'. rewrite Ht'.
    destruct (decide (j = i)) as [->|Hne].
    + rewrite Hi in Hj. injection Hj as <-.
      now rewrite (step_task_terminal i t s Hterm) in Hs.
    + now rewrite list_lookup_insert_ne.
Qed.

Lemma terminal_run sched i t s :
  tasks s !! i = Some t -> terminal (t_pc t) -> tasks (run sched s) !! i = Some t.
Proof.
  revert s. induction sched as [|c sched IH]; intros s Hi Hterm; [exact Hi|].
  simpl. apply IH; [|exact Hterm]. now apply terminal_exec.
Qed.

(** Scheduling task [i] alone for as many statements as it has left runs
    it to its end and touches nothing that belongs to anyone else. *)
Lemma run_task_to_end n : forall s i t,
  crashed s = false -> tasks s !! i = Some t -> steps_left (sbot s) t = n ->
  exists t',
    tasks (run (repeat (Run i) n) s) !! i = Some t' /\
    terminal (t_pc t') /\ t_msg t' = t_msg t /\
    sbot (run (repeat (Run i) n) s) = sbot s /\
    inbox (run (repeat (Run i) n) s) = inbox s /\
    (forall j, j <> i -> tasks (run (repeat (Run i) n) s) !! j = tasks s !! j) /\
    (forall j, j <> i ->
       emitted j (outbox (run (repeat (Run i) n) s)) = emitted j (outbox s)) /\
    (crashed (run (repeat (Run i) n) s) = true -> exists v, t_pc t' = Died v) /\
    (forall e, In e (logs s) -> In e (logs (run (repeat (Run i) n) s))).
Proof.
  induction n as [|n IH]; intros s i t Hcr Hi Hn.
  - exists t. simpl. apply steps_left_terminal in Hn.
    repeat split; auto. congruence.
  - assert (Hnt : ~ terminal (t_pc t)).
    { intros Hterm. apply (proj2 (steps_left_terminal (sbot s) t)) in Hterm. lia. }
    destruct (step_task_enabled i t s Hnt) as [s1 Hs].
    destruct (step_task_nf _ _ _ _ Hi Hs)
      as (pc' & sent & lg & Hb' & Hin' & Ht' & Ho' & Hl' & Hc' & _ & _ & Hsl & _).
    simpl in *. rewrite (exec_Run i t s Hcr Hi), Hs. simpl.
    pose proof (lookup_lt_Some _ _ _ Hi) as Hlt.
    set (t1 := mkTask (t_self t) (t_msg t) pc') in *.
    assert (Hi1 : tasks s1 !! i = Some t1) by (rewrite Ht'; now apply list_lookup_insert_eq).
    assert (Hothers : forall j, j <> i -> tasks s1 !! j = tasks s !! j).
    { intros j Hj. rewrite Ht'. apply list_lookup_insert_ne. congruence. }
    assert (Hemit : forall j, j <> i -> emitted j (outbox s1) = emitted j (outbox s)).
    { intros j Hj. rewrite Ho', emitted_app, emitted_tagged_other by exact Hj.
      apply app_nil_r. }
    assert (Hlogs : forall e, In e (logs s) -> In e (logs s1)).
    { intros e He. rewrite Hl'. apply in_or_app. now left. }
    destruct (crashed s1) eqn:Hcr1.
    + rewrite run_crashed by exact Hcr1.
      rewrite Hcr in Hc'. simpl in Hc'.
      destruct pc' as [| | | | | |v]; try discriminate.
      exists t1. repeat split; auto. now exists v.
    + destruct (IH s1 i t1 Hcr1 Hi1) as (t' & H1 & H2 & H3 & H4 & H5 & H6 & H7 & H8 & H9).
      { rewrite Hb'. lia. }
      exists t'. repeat split; auto.
      * congruence.
      * congruence.
      * intros j Hj. rewrite H6 by exact Hj. now apply Hothers.
      * intros j Hj. rewrite H7 by exact Hj. now apply Hemit.
Qed.

(** Once a task has ended, what it has put on the outbound channel and
    the way it ended are those of [behaviour]. *)
Lemma terminal_behaviour b msgs s i t :
  Inv b msgs s -> tasks s !! i = Some t -> terminal (t_pc t) ->
  behaviour b (t_msg t) = (emitted i (outbox s), final_of (t_pc t)).
Proof.
  intros HI Hi Hterm. destruct (inv_task _ _ _ HI i t Hi) as (_ & _ & Heq).
  rewrite <- Heq. unfold future.
  destruct (t_pc t); simpl in *; try contradiction; now rewrite app_nil_r.
Qed.

Lemma emitted_prefix b msgs s i t :
  Inv b msgs s -> tasks s !! i = Some t ->
  emitted i (outbox s) `prefix_of` fst (behaviour b (t_msg t)).
Proof.
  intros HI Hi. destruct (inv_task _ _ _ HI i t Hi) as (_ & _ & Heq).
  rewrite <- Heq. simpl. now apply prefix_app_r.
Qed.

Lemma rules_loop_all_return (self : Self) m rs results :
  Forall2 (fun r l => ParseMessage r self m = Returned l) rs results ->
  rules_loop self m rs = (concat results, FDone).
Proof.
  induction 1 as [|r l rs results Hr _ IH]; simpl; [reflexivity|].
  now rewrite Hr, IH.
Qed.

Lemma rules_loop_panic (self : Self) m pre rule post results v :
  Forall2 (fun r l => ParseMessage r self m = Returned l) pre results ->
  ParseMessage rule self m = Panicked v ->
  rules_loop self m (pre ++ rule :: post) = (concat results, FRecovered v).
Proof.
  intros Hpre Hp. induction Hpre as [|r l pre results Hr _ IH]; simpl.
  - now rewrite Hp.
  - now rewrite Hr, IH.
Qed.

Lemma help_loop_all_return (self : Self) rs hs : forall acc,
  Forall2 (fun r h => HelpMessage r self = Returned h) rs hs ->
  help_loop self acc rs = Returned (acc +:+ help_lines hs).
Proof.
  intros acc Hall. revert acc.
  induction Hall as [|r h rs hs Hr _ IH]; intros acc; simpl.
  - unfold help_lines. simpl. f_equal. induction acc as [|c acc IHa]; [reflexivity|].
    change (String c acc = String c (acc +:+ EmptyString)). now rewrite <- IHa.
  - rewrite Hr, IH, Sprintln_two. f_equal.
    unfold help_lines. cbn [map String.concat].
    destruct hs as [|h' hs']; cbn [map String.concat]; now rewrite !append_assoc.
Qed.

Lemma help_behaviour b m hs :
  is_help b m = true ->
  Forall2 (fun r h => HelpMessage r b = Returned h) (rules b) hs ->
  behaviour b m = ([help_reply m (help_text hs)], FDone).
Proof.
  intros Hh Hall. unfold behaviour, help_rest. rewrite Hh.
  rewrite (help_loop_all_return b (rules b) hs _ Hall).
  unfold help_text, Sprintln. cbn [String.concat]. now rewrite append_assoc.
Qed.

Lemma alive_when_helps_return b msgs s hs :
  Inv b msgs s ->
  Forall2 (fun r h => HelpMessage r b = Returned h) (rules b) hs ->
  crashed s = false.
Proof.
  intros HI Hall. destruct (crashed s) eqn:Hcr; [exfalso|reflexivity].
  destruct (inv_crash _ _ _ HI Hcr) as (i & t & v & Hi & Hpc).
  destruct (inv_task _ _ _ HI i t Hi) as (_ & Hkind & Heq).
  unfold pc_kind_ok in Hkind. unfold future in Heq. rewrite Hpc in Hkind, Heq.
  rewrite (help_behaviour b (t_msg t) hs Hkind Hall) in Heq. discriminate.
Qed.

Lemma exec_MainRecv s m ms :
  crashed s = false -> inbox s = m :: ms -> exec MainRecv s = spawn m s.
Proof. intros Hcr Hin. unfold exec, step. now rewrite Hcr, Hin. Qed.

(** The receive loop, scheduled alone, takes every message still inbound:
    each inbound message gets its task, in order of arrival. *)
Lemma receive_loop_drains n : forall s,
  crashed s = false -> length (inbox s) = n ->
  inbox (run (repeat MainRecv n) s) = [] /\
  crashed (run (repeat MainRecv n) s) = false.
Proof.
  induction n as [|n IH]; intros s Hcr Hn.
  - simpl. split; [|exact Hcr]. now destruct (inbox s).
  - destruct (inbox s) as [|m ms] eqn:Hin; [discriminate|].
    simpl. rewrite (exec_MainRecv s m ms Hcr Hin).
    apply IH; [exact Hcr|]. simpl. rewrite Hin. simpl in *. lia.
Qed.

Lemma every_message_gets_a_task b msgs sched :
  crashed (run sched (init b msgs)) = false ->
  exists n,
    map t_msg (tasks (run (repeat MainRecv n) (run sched (init b msgs)))) = msgs /\
    crashed (run (repeat MainRecv n) (run sched (init b msgs))) = false.
Proof.
  intros Hcr.
  exists (length (inbox (run sched (init b msgs)))).
  destruct (receive_loop_drains _ _ Hcr eq_refl) as [Hin Hcr'].
  split; [|exact Hcr'].
  pose proof (Inv_run b msgs (repeat MainRecv (length (inbox (run sched (init b msgs)))))
                _ (Inv_reach b msgs sched)) as HI.
  pose proof (inv_msgs _ _ _ HI) as Hm. rewrite Hin, app_nil_r in Hm. exact Hm.
Qed.

(** From any state the machine can reach while alive, a task scheduled
    alone reaches its end after the statements it has left; it has then
    sent what [behaviour] says, and sends nothing more. *)
Lemma task_runs_to_end b msgs sched i t :
  crashed (run sched (init b msgs)) = false ->
  tasks (run sched (init b msgs)) !! i = Some t ->
  exists n t',
    let s := run sched (init b msgs) in
    let s' := run (repeat (Run i) n) s in
    Inv b msgs s' /\
    tasks s' !! i = Some t' /\ terminal (t_pc t') /\ t_msg t' = t_msg t /\
    behaviour b (t_msg t) = (emitted i (outbox s'), final_of (t_pc t')) /\
    (forall sched2,
       tasks (run sched2 s') !! i = Some t' /\
       emitted i (outbox (run sched2 s')) = emitted i (outbox s')) /\
    inbox s' = inbox s /\
    (forall j, j <> i -> tasks s' !! j = tasks s !! j) /\
    (forall j, j <> i -> emitted j (outbox s') = emitted j (outbox s)) /\
    (crashed s' = true -> exists v, t_pc t' = Died v).
Proof.
  intros Hcr Hi.
  set (s := run sched (init b msgs)) in *.
  pose proof (Inv_reach b msgs sched) as HI. fold s in HI.
  destruct (run_task_to_end (steps_left (sbot s) t) s i t Hcr Hi eq_refl)
    as (t' & H1 & H2 & H3 & _ & H5 & H6 & H7 & H8 & _).
  exists (steps_left (sbot s) t), t'. cbv zeta.
  set (s' := run (repeat (Run i) (steps_left (sbot s) t)) s) in *.
  assert (HI' : Inv b msgs s') by now apply Inv_run.
  pose proof (terminal_behaviour b msgs s' i t' HI' H1 H2) as Hbeh.
  rewrite H3 in Hbeh.
  split; [exact HI'|]. repeat split; auto.
  - now apply terminal_run.
  - pose proof (terminal_run sched2 i t' s' H1 H2) as Hi2.
    pose proof (terminal_behaviour b msgs _ i t' (Inv_run b msgs sched2 s' HI') Hi2 H2) as Hb2.
    rewrite H3, Hbeh in Hb2. now injection Hb2 as <-.
Qed.

(** C1, as the code has it.  For every inbound message whose text starts
    with the bot's name followed by [" help"], and a rule set whose
    HelpMessage calls all return: the task spawned for it never reaches
    rule evaluation; what it has sent at any moment is a prefix of the
    single reply; and run to its end it has sent exactly one message,
    addressed to the sender ([ToUserID], [ToUserName]) in the sender's
    room, whose text is the line ["available commands:"] followed, for
    each rule in registration order, by a space, the rule's help text and
    a newline; nothing is sent after that. *)
Theorem help_request_gets_one_reply b msgs sched i t hs :
  tasks (run sched (init b msgs)) !! i = Some t ->
  is_help b (t_msg t) = true ->
  Forall2 (fun r h => HelpMessage r b = Returned h) (rules b) hs ->
  let s := run sched (init b msgs) in
  let reply :=
    mkMessage (Room (t_msg t)) EmptyString EmptyString
              (FromUserID (t_msg t)) (FromUserName (t_msg t)) (help_text hs) false in
  t_pc t <> RulesInit /\ (forall rest pending, t_pc t <> RulesLoop rest pending) /\
  emitted i (outbox s) `prefix_of` [reply] /\
  exists n,
    pc_of i (run (repeat (Run i) n) s) = Some Done /\
    forall sched2, emitted i (outbox (run sched2 (run (repeat (Run i) n) s))) = [reply].
Proof.
  intros Hi Hh Hall. cbv zeta.
  pose proof (Inv_reach b msgs sched) as HI.
  pose proof (alive_when_helps_return _ _ _ _ HI Hall) as Hcr.
  pose proof (help_behaviour b (t_msg t) hs Hh Hall) as Hbeh.
  destruct (inv_task _ _ _ HI i t Hi) as (_ & Hkind & _).
  split; [|split; [|split]].
  - intros Hpc. unfold pc_kind_ok in Hkind. rewrite Hpc in Hkind. congruence.
  - intros rest pending Hpc. unfold pc_kind_ok in Hkind. rewrite Hpc in Hkind. congruence.
  - pose proof (emitted_prefix _ _ _ _ _ HI Hi) as Hp. now rewrite Hbeh in Hp.
  - destruct (task_runs_to_end b msgs sched i t Hcr Hi)
      as (n & t' & _ & H1 & H2 & _ & H4 & H5 & _).
    cbv zeta in *. rewrite Hbeh in H4. injection H4 as Hout Hfin.
    exists n. split.
    + unfold pc_of. rewrite H1. simpl. f_equal.
      destruct (t_pc t'); simpl in *; try contradiction; try discriminate; reflexivity.
    + intros sched2. destruct (H5 sched2) as [_ ->]. now rewrite <- Hout.
Qed.

(** C2.  For every inbound message that is no help request and a rule
    sequence whose ParseMessage calls on it all return, while the process
    is alive: what the task spawned for the message has sent at any moment
    is a prefix of the concatenation, in rule-registration order, of the
    rules' results; and run to its end the task has sent exactly that
    concatenation, each rule's results in the order returned, and sends
    nothing more. *)
Theorem rules_outputs_are_concatenated b msgs sched i t results :
  tasks (run sched (init b msgs)) !! i = Some t ->
  crashed (run sched (init b msgs)) = false ->
  is_help b (t_msg t) = false ->
  Forall2 (fun r l => ParseMessage r b (t_msg t) = Returned l) (rules b) results ->
  let s := run sched (init b msgs) in
  emitted i (outbox s) `prefix_of` concat results /\
  exists n,
    pc_of i (run (repeat (Run i) n) s) = Some Done /\
    forall sched2,
      emitted i (outbox (run sched2 (run (repeat (Run i) n) s))) = concat results.
Proof.
  intros Hi Hcr Hh Hall. cbv zeta.
  pose proof (Inv_reach b msgs sched) as HI.
  assert (Hbeh : behaviour b (t_msg t) = (concat results, FDone)).
  { unfold behaviour. rewrite Hh. now apply rules_loop_all_return. }
  split.
  - pose proof (emitted_prefix _ _ _ _ _ HI Hi) as Hp. now rewrite Hbeh in Hp.
  - destruct (task_runs_to_end b msgs sched i t Hcr Hi)
      as (n & t' & _ & H1 & H2 & _ & H4 & H5 & _).
    cbv zeta in *. rewrite Hbeh in H4. injection H4 as Hout Hfin.
    exists n. split.
    + unfold pc_of. rewrite H1. simpl. f_equal.
      destruct (t_pc t'); simpl in *; try contradiction; try discriminate; reflexivity.
    + intros sched2. destruct (H5 sched2) as [_ ->]. now rewrite <- Hout.
Qed.

(** C7.  For every inbound message that is no help request: when a rule
    panics with [v] after the rules before it have returned, the task run
    to its end has recovered the panic ([Recovered v]) and can take no
    further step; the panic is in the log together with the message; the
    task has sent the results of the rules before the panicking one and
    sends nothing for the rules after it, now or later; the process is
    alive; the inbound queue, every other task and what every other task
    has sent are untouched; and the receive loop takes the next inbound
    message as before. *)
Theorem rule_panic_is_contained b msgs sched i t pre rule post results v :
  tasks (run sched (init b msgs)) !! i = Some t ->
  crashed (run sched (init b msgs)) = false ->
  is_help b (t_msg t) = false ->
  rules b = pre ++ rule :: post ->
  Forall2 (fun r l => ParseMessage r b (t_msg t) = Returned l) pre results ->
  ParseMessage rule b (t_msg t) = Panicked v ->
  let s := run sched (init b msgs) in
  exists n,
    let s' := run (repeat (Run i) n) s in
    pc_of i s' = Some (Recovered v) /\
    step (Run i) s' = None /\
    In (LogPanicRecovered (t_msg t) v) (logs s') /\
    (forall sched2, emitted i (outbox (run sched2 s')) = concat results) /\
    crashed s' = false /\
    inbox s' = inbox s /\
    (forall j, j <> i -> tasks s' !! j = tasks s !! j) /\
    (forall j, j <> i -> emitted j (outbox s') = emitted j (outbox s)) /\
    (forall m ms, inbox s' = m :: ms -> step MainRecv s' = Some (spawn m s')).
Proof.
  intros Hi Hcr Hh Hrules Hpre Hp. cbv zeta.
  assert (Hbeh : behaviour b (t_msg t) = (concat results, FRecovered v)).
  { unfold behaviour. rewrite Hh, Hrules. now apply rules_loop_panic. }
  destruct (task_runs_to_end b msgs sched i t Hcr Hi)
    as (n & t' & HI' & H1 & H2 & H3 & H4 & H5 & H6 & H7 & H8 & H9).
  cbv zeta in *. rewrite Hbeh in H4. injection H4 as Hout Hfin.
  assert (Hpc : t_pc t' = Recovered v).
  { destruct (t_pc t'); simpl in *; try contradiction; try discriminate.
    now injection Hfin as <-. }
  assert (Hcr' : crashed (run (repeat (Run i) n) (run sched (init b msgs))) = false).
  { apply not_true_is_false. intros Hc. destruct (H9 Hc) as [v' Hd]. congruence. }
  exists n. repeat split; auto.
  - unfold pc_of. now rewrite H1, <- Hpc.
  - unfold step. rewrite Hcr', H1. apply step_task_terminal. now rewrite Hpc.
  - rewrite <- H3. exact (inv_log _ _ _ HI' i t' v H1 Hpc).
  - intros sched2. destruct (H5 sched2) as [_ ->]. now rewrite <- Hout.
  - intros m ms Hin. unfold step. now rewrite Hcr', Hin.
Qed.

(** C10.  Every task holds a copy of the bot's state taken when it was
    spawned, and whatever has run, the bot behind the dispatcher has the
    name, the rule sequence and the brain it started with. *)
Theorem dispatcher_state_is_never_written b msgs sched :
  name (sbot (run sched (init b msgs))) = name b /\
  rules (sbot (run sched (init b msgs))) = rules b /\
  brain (sbot (run sched (init b msgs))) = brain b /\
  Forall (fun t => t_self t = b) (tasks (run sched (init b msgs))).
Proof.
  pose proof (Inv_reach b msgs sched) as HI.
  rewrite (inv_bot _ _ _ HI). repeat split.
  apply Forall_lookup. intros i t Hi.
  now destruct (inv_task _ _ _ HI i t Hi).
Qed.

End Facts.

(** *** The theorems on the rule set of [demo] *)

Import demo.

Lemma help_request_gets_one_reply_witness :
  let b := demo.bender [demo.Echo; demo.Twice] in
  let s := run [MainRecv; Run 0] (init b [demo.help_request]) in
  tasks s !! 0 = Some (mkTask b demo.help_request
                         (HelpLoop (Sprintln ["available commands:"]) (rules b))) /\
  is_help b demo.help_request = true /\
  exists n, pc_of 0 (run (repeat (Run 0) n) s) = Some Done /\
            forall sched2, emitted 0 (outbox (run sched2 (run (repeat (Run 0) n) s))) =
              [demo.reply_to demo.help_request
                 (help_text ["echo: repeats your message"; "twice: answers twice"])].
Proof.
  cbv zeta. split; [reflexivity|]. split; [reflexivity|].
  destruct (help_request_gets_one_reply
              (demo.bender [demo.Echo; demo.Twice]) [demo.help_request] [MainRecv; Run 0] 0
              (mkTask (demo.bender [demo.Echo; demo.Twice]) demo.help_request
                 (HelpLoop (Sprintln ["available commands:"])
                    (rules (demo.bender [demo.Echo; demo.Twice]))))
              ["echo: repeats your message"; "twice: answers twice"])
    as (_ & _ & _ & n & Hn).
  - reflexivity.
  - reflexivity.
  - repeat constructor.
  - exists n. exact Hn.
Defined.

(** C1 as the spec words it fails on the spec's own example: bot
    ["bender"], one rule with help text ["echo: repeats your message"],
    inbound text ["bender help"].  The one message sent has a space
    between the newline of the heading and the help text, which the text
    the spec gives does not. *)
Lemma help_example_text_differs :
  let s := run [MainRecv; Run 0; Run 0; Run 0]
               (init (demo.bender [demo.Echo]) [demo.help_request]) in
  map t_pc (tasks s) = [Done] /\
  outbox s =
    [(0, mkMessage "C1" EmptyString EmptyString "U1" "alice"
           ("available commands:" +:+ nl +:+ " echo: repeats your message" +:+ nl) false)] /\
  outbox s <>
    [(0, mkMessage "C1" EmptyString EmptyString "U1" "alice"
           ("available commands:" +:+ nl +:+ "echo: repeats your message" +:+ nl) false)].
Proof.
  cbv zeta. split; [reflexivity|]. split; [reflexivity|].
  vm_compute. discriminate.
Qed.

Lemma rules_outputs_are_concatenated_witness :
  let b := demo.bender [demo.Echo; demo.Twice] in
  let s := run [MainRecv; Run 0; Run 0] (init b [demo.hello]) in
  tasks s !! 0 = Some (mkTask b demo.hello
                         (RulesLoop [demo.Twice] [demo.reply_to demo.hello "hello"])) /\
  crashed s = false /\
  exists n, pc_of 0 (run (repeat (Run 0) n) s) = Some Done /\
            forall sched2, emitted 0 (outbox (run sched2 (run (repeat (Run 0) n) s))) =
              [demo.reply_to demo.hello "hello"; demo.reply_to demo.hello "one";
               demo.reply_to demo.hello "two"].
Proof.
  cbv zeta. split; [reflexivity|]. split; [reflexivity|].
  destruct (rules_outputs_are_concatenated
              (demo.bender [demo.Echo; demo.Twice]) [demo.hello] [MainRecv; Run 0; Run 0] 0
              (mkTask (demo.bender [demo.Echo; demo.Twice]) demo.hello
                 (RulesLoop [demo.Twice] [demo.reply_to demo.hello "hello"]))
              [[demo.reply_to demo.hello "hello"];
               [demo.reply_to demo.hello "one"; demo.reply_to demo.hello "two"]])
    as (_ & n & Hn).
  - reflexivity.
  - reflexivity.
  - reflexivity.
  - repeat constructor.
  - exists n. exact Hn.
Defined.

Lemma rule_panic_is_contained_witness :
  let b := demo.bender [demo.Echo; demo.Faulty; demo.Twice] in
  let s := run [MainRecv; MainRecv; Run 1] (init b [demo.hello; demo.hello]) in
  tasks s !! 0 = Some (mkTask b demo.hello RulesInit) /\
  crashed s = false /\
  ParseMessage demo.Faulty b demo.hello = Panicked "index out of range" /\
  exists n,
    pc_of 0 (run (repeat (Run 0) n) s) = Some (Recovered "index out of range") /\
    (forall sched2, emitted 0 (outbox (run sched2 (run (repeat (Run 0) n) s))) =
                    [demo.reply_to demo.hello "hello"]) /\
    tasks (run (repeat (Run 0) n) s) !! 1 = tasks s !! 1.
Proof.
  cbv zeta. split; [reflexivity|]. split; [reflexivity|]. split; [reflexivity|].
  destruct (rule_panic_is_contained
              (demo.bender [demo.Echo; demo.Faulty; demo.Twice]) [demo.hello; demo.hello]
              [MainRecv; MainRecv; Run 1] 0
              (mkTask (demo.bender [demo.Echo; demo.Faulty; demo.Twice]) demo.hello RulesInit)
              [demo.Echo] demo.Faulty [demo.Twice]
              [[demo.reply_to demo.hello "hello"]] "index out of range")
    as (n & Hpc & _ & _ & Hout & _ & _ & Hothers & _).
  - reflexivity.
  - reflexivity.
  - reflexivity.
  - reflexivity.
  - repeat constructor.
  - reflexivity.
  - exists n. split; [exact Hpc|]. split; [exact Hout|]. apply Hothers. discriminate.
Defined.

(** *** The start-once guard *)

Lemma run_ops_app ops1 ops2 w : run_ops (ops1 ++ ops2) w = run_ops ops2 (run_ops ops1 w).
Proof. unfold run_ops. apply fold_left_app. Qed.

Lemma apply_op_started o w :
  processOnce w <> OnceFresh ->
  processOnce (apply_op w o) <> OnceFresh /\ looping (apply_op w o) = looping w.
Proof.
  destruct o as [c|]; simpl; unfold Process, loop_exit;
    destruct (processOnce w) eqn:Ho; simpl; intros Hne; rewrite ?Ho; split;
    congruence.
Qed.

Lemma run_ops_started ops : forall w,
  processOnce w <> OnceFresh ->
  processOnce (run_ops ops w) <> OnceFresh /\ looping (run_ops ops w) = looping w.
Proof.
  induction ops as [|o ops IH]; intros w Hne; [now split|].
  simpl. destruct (apply_op_started o w Hne) as [Hne' Hl].
  destruct (IH _ Hne') as [H1 H2]. split; [exact H1 | congruence].
Qed.

(** C8 as the spec words it fails: with two bot instances, the first call
    of Process on the second one starts no loop, because the first
    instance has already used the one [processOnce]. *)
Lemma second_instance_never_starts :
  let w := run_ops [CallProcess 0; CallProcess 1] boot in
  looping w = [0] /\ ~ In 1 (looping w) /\ waiting w = [1].
Proof.
  cbv zeta. split; [reflexivity|]. split; [|reflexivity].
  simpl. intros [H|[]]. discriminate.
Qed.

(** C8, as the code has it.  The guard is one per process: after the
    first call of Process, on instance [b], exactly the loop of [b] has
    been started, whatever calls follow, on [b] or on any other instance;
    a further call on any instance [c] starts no loop and leaves the guard
    as it is. *)
Theorem process_starts_one_loop_per_process b ops c :
  looping (run_ops (CallProcess b :: ops) boot) = [b] /\
  looping (Process c (run_ops (CallProcess b :: ops) boot)) = [b] /\
  processOnce (Process c (run_ops (CallProcess b :: ops) boot))
    = processOnce (run_ops (CallProcess b :: ops) boot).
Proof.
  assert (Hne : processOnce (Process b boot) <> OnceFresh) by discriminate.
  destruct (run_ops_started ops (Process b boot) Hne) as [H1 H2].
  change (run_ops (CallProcess b :: ops) boot) with (run_ops ops (Process b boot)).
  split; [exact H2|].
  unfold Process at 1 3.
  destruct (processOnce (run_ops ops (Process b boot))) eqn:Ho; simpl; try congruence.
  all: rewrite ?Ho; split; auto.
Qed.

End BotProofs.

(** * Properties of the Slack provider *)

Module SlackProofs.

Import providers.
Local Open Scope slack_scope.

Ltac run_m :=
  unfold value_of, state_of, trace_of, bind, ret, get, modify, emit in *; simpl in *.

Lemma lookups_app id tr1 tr2 : lookups id (tr1 ++ tr2) = lookups id tr1 + lookups id tr2.
Proof.
  induction tr1 as [|e tr1 IH]; simpl; [reflexivity|].
  destruct e; simpl; rewrite IH; lia.
Qed.

Lemma getUserName_hit id reply p name :
  usernames p !! id = Some name -> getUserName id reply p = (name, p, []).
Proof. intros Hhit. unfold getUserName. run_m. now rewrite Hhit. Qed.

Lemma getUserName_miss_ok id data p :
  usernames p !! id = None ->
  getUserName id (Decoded data) p =
    (ui_Name data, set_usernames (<[id := ui_Name data]> (usernames p)) p,
     [EvLog "slack: reading username from id"; EvUsersInfo (token p) id;
      EvLog ("slack: " +:+ id +:+ " is " +:+ ui_Name data)]).
Proof.
  intros Hmiss. unfold getUserName. run_m. rewrite Hmiss. simpl.
  now rewrite lookup_insert_eq.
Qed.

Lemma getUserName_miss_failed id reply p :
  usernames p !! id = None -> succeeded reply = false ->
  value_of (getUserName id reply p) = EmptyString /\
  state_of (getUserName id reply p) = p /\
  lookups id (trace_of (getUserName id reply p)) = 1.
Proof.
  intros Hmiss Hfail. unfold getUserName. run_m. rewrite Hmiss.
  destruct reply; try discriminate; simpl; now rewrite String.eqb_refl.
Qed.

(** A call for one id leaves the cache entry of any id that has one. *)
Lemma getUserName_keeps id id' reply p name :
  usernames p !! id = Some name ->
  usernames (state_of (getUserName id' reply p)) !! id = Some name.
Proof.
  intros Hhit. unfold getUserName. run_m.
  destruct (usernames p !! id') as [n'|] eqn:Hid'; simpl; [exact Hhit|].
  destruct reply; simpl; try exact Hhit.
  rewrite lookup_insert_ne; [exact Hhit|]. intros ->. congruence.
Qed.

Lemma getUserName_other id id' reply p :
  id' <> id -> lookups id (trace_of (getUserName id' reply p)) = 0.
Proof.
  intros Hne. unfold getUserName. run_m.
  destruct (usernames p !! id'); simpl; [reflexivity|].
  apply String.eqb_neq in Hne.
  destruct reply; simpl; now rewrite Hne.
Qed.

Lemma resolve_all_trace id reply calls p :
  trace_of (resolve_all ((id, reply) :: calls) p) =
    trace_of (getUserName id reply p) ++
    trace_of (resolve_all calls (state_of (getUserName id reply p))).
Proof.
  simpl. unfold bind at 1. unfold state_of, trace_of.
  destruct (getUserName id reply p) as [[n p1] e1]. simpl.
  unfold bind at 1. destruct (resolve_all calls p1) as [[ns p2] e2]. simpl.
  unfold ret. now rewrite app_nil_r.
Qed.

Lemma cached_never_looked_up id calls : forall p name,
  usernames p !! id = Some name ->
  lookups id (trace_of (resolve_all calls p)) = 0.
Proof.
  induction calls as [|[id' reply] calls IH]; intros p name Hhit; [reflexivity|].
  rewrite resolve_all_trace, lookups_app.
  rewrite (IH _ name) by now apply getUserName_keeps.
  destruct (decide (id' = id)) as [->|Hne].
  - now rewrite (getUserName_hit id reply p name Hhit).
  - now rewrite (getUserName_other id id' reply p Hne).
Qed.

Lemma at_most_one_lookup id calls : forall p,
  (forall reply, In (id, reply) calls -> succeeded reply = true) ->
  lookups id (trace_of (resolve_all calls p)) <= 1.
Proof.
  induction calls as [|[id' reply] calls IH]; intros p Hok; [simpl; lia|].
  rewrite resolve_all_trace, lookups_app.
  assert (Hok' : forall r, In (id, r) calls -> succeeded r = true)
    by (intros r Hr; apply Hok; now right).
  destruct (decide (id' = id)) as [->|Hne].
  - destruct (usernames p !! id) as [name|] eqn:Hc.
    + rewrite (getUserName_hit id reply p name Hc).
      change (state_of (name, p, [])) with p.
      rewrite (cached_never_looked_up id calls p name Hc). simpl. lia.
    + specialize (Hok reply (or_introl eq_refl)).
      destruct reply as [e|e|data]; try discriminate.
      rewrite (getUserName_miss_ok id data p Hc).
      match goal with
      | |- context [state_of (_, ?q, _)] => change (state_of (_, q, _)) with q
      end.
      rewrite (cached_never_looked_up id calls _ (ui_Name data))
        by apply lookup_insert_eq.
      unfold trace_of. simpl. rewrite String.eqb_refl. lia.
  - rewrite (getUserName_other id id' reply p Hne). simpl. now apply IH.
Qed.

(** C4.  getUserName is a cache-aside lookup.  A cached id is answered
    from the cache with no request.  On a miss one users.info request is
    made: when it is answered and decodes, the name is stored under the id
    and returned; when the request or the decoding fails, the empty string
    is returned and the provider is as before, so the next call for the id
    asks again.  In a run of calls in which every lookup made for an id
    succeeds, at most one request is made for it. *)
Theorem getUserName_is_cache_aside id p :
  (forall name reply,
     usernames p !! id = Some name -> getUserName id reply p = (name, p, [])) /\
  (forall data,
     usernames p !! id = None ->
     value_of (getUserName id (Decoded data) p) = ui_Name data /\
     usernames (state_of (getUserName id (Decoded data) p)) !! id = Some (ui_Name data) /\
     lookups id (trace_of (getUserName id (Decoded data) p)) = 1) /\
  (forall reply reply',
     usernames p !! id = None -> succeeded reply = false ->
     value_of (getUserName id reply p) = EmptyString /\
     state_of (getUserName id reply p) = p /\
     lookups id (trace_of (getUserName id reply p)) = 1 /\
     lookups id (trace_of (getUserName id reply' (state_of (getUserName id reply p)))) = 1) /\
  (forall calls,
     (forall reply, In (id, reply) calls -> succeeded reply = true) ->
     lookups id (trace_of (resolve_all calls p)) <= 1).
Proof.
  split; [|split; [|split]].
  - intros name reply Hhit. now apply getUserName_hit.
  - intros data Hmiss. rewrite (getUserName_miss_ok id data p Hmiss).
    unfold value_of, state_of, trace_of. simpl.
    rewrite lookup_insert_eq, String.eqb_refl. auto.
  - intros reply reply' Hmiss Hfail.
    destruct (getUserName_miss_failed id reply p Hmiss Hfail) as (H1 & H2 & H3).
    repeat split; auto. rewrite H2.
    destruct reply' as [e|e|data].
    + now apply getUserName_miss_failed.
    + now apply getUserName_miss_failed.
    + rewrite (getUserName_miss_ok id data p Hmiss). unfold trace_of. simpl.
      now rewrite String.eqb_refl.
  - intros calls Hok. now apply at_most_one_lookup.
Qed.

Lemma getUserName_is_cache_aside_witness :
  let p := mkSlack "tok" "wss://a" "B1" (Some 3) None {["U1" := "alice"]} in
  getUserName "U1" (GetFailed "timeout") p = ("alice", p, []) /\
  value_of (getUserName "U2" (Decoded (mkUsersInfo (OKBool true) "bob")) p) = "bob" /\
  state_of (getUserName "U2" (DecodeFailed "unexpected EOF") p) = p /\
  lookups "U2" (trace_of (resolve_all
     [("U2", Decoded (mkUsersInfo (OKBool true) "bob"));
      ("U1", GetFailed "timeout");
      ("U2", Decoded (mkUsersInfo (OKBool true) "bob"))] p)) <= 1.
Proof.
  cbv zeta.
  pose (p := mkSlack "tok" "wss://a" "B1" (Some 3) None {["U1" := "alice"]}).
  destruct (getUserName_is_cache_aside "U1" p) as (Hhit & _).
  destruct (getUserName_is_cache_aside "U2" p) as (_ & Hok & Hfail & Hrun).
  split; [apply Hhit; reflexivity|].
  split; [apply Hok; reflexivity|].
  split; [apply (Hfail (DecodeFailed "unexpected EOF") (GetFailed "timeout")); reflexivity|].
  apply Hrun. intros reply [H|[H|[H|[]]]]; try discriminate;
    injection H as <-; reflexivity.
Defined.

Lemma HasPrefix_D (s : string) :
  HasPrefix s "D" = true <-> exists rest, s = "D" +:+ rest.
Proof.
  unfold HasPrefix. destruct s as [|c s].
  - split; [discriminate | intros [rest Hr]].
    change ("D" +:+ rest) with (String "D" rest) in Hr. discriminate.
  - change (String.prefix "D" (String c s))
      with (if ascii_dec "D" c then String.prefix EmptyString s else false).
    destruct (ascii_dec "D" c) as [<-|Hne].
    + split; [intros _; now exists s | intros _; now destruct s].
    + split; [discriminate | intros [rest Hr]].
      change ("D" +:+ rest) with (String "D" rest) in Hr.
      injection Hr as Hc _. congruence.
Qed.

Lemma intake_Direct frame reply p msg :
  value_of (intake frame reply p) = Some msg ->
  Direct msg = HasPrefix (Room msg) "D".
Proof.
  unfold intake. destruct frame as [|data]; [discriminate|].
  destruct (negb (String.eqb (in_Type data) "message")); [discriminate|].
  unfold value_of, bind.
  destruct (getUserName (in_UserID data) reply p) as [[n p1] e1]. simpl.
  now intros [= <-].
Qed.

Lemma intakeLoop_Direct frames : forall p,
  Forall (fun msg => Direct msg = HasPrefix (Room msg) "D")
         (value_of (intakeLoop frames p)).
Proof.
  induction frames as [|[frame reply] frames IH]; intros p; [constructor|].
  simpl. unfold bind at 1.
  pose proof (intake_Direct frame reply p) as Hone.
  destruct (intake frame reply p) as [[m p1] e1]. unfold bind at 1.
  specialize (IH p1).
  destruct (intakeLoop frames p1) as [[ms p2] e2]. unfold value_of in *. simpl in *.
  destruct m as [msg|]; [constructor; auto | exact IH].
Qed.

(** C9.  The message the intake loop puts on the inbound channel for an
    accepted frame (one that decodes and whose type is ["message"]) has
    the frame's channel as [Room], its user as [FromUserID], that user's
    resolved name as [FromUserName], its text as text, no addressee, and
    [Direct] set exactly when the channel identifier starts with ["D"];
    and every message the loop hands on, over any stream of frames, has
    [Direct] set exactly when its room starts with ["D"]. *)
Theorem intake_builds_message :
  (forall data reply p,
     in_Type data = "message" ->
     exists msg,
       value_of (intake (DecodeOK data) reply p) = Some msg /\
       Room msg = in_Channel data /\
       FromUserID msg = in_UserID data /\
       FromUserName msg = value_of (getUserName (in_UserID data) reply p) /\
       ToUserID msg = EmptyString /\
       ToUserName msg = EmptyString /\
       Message_ msg = in_Text data /\
       (Direct msg = true <-> exists rest, in_Channel data = "D" +:+ rest)) /\
  (forall frames p,
     Forall (fun msg => Direct msg = true <-> exists rest, Room msg = "D" +:+ rest)
            (value_of (intakeLoop frames p))).
Proof.
  split.
  - intros data reply p Hty. unfold intake. rewrite Hty. simpl.
    unfold value_of, bind.
    destruct (getUserName (in_UserID data) reply p) as [[n p1] e1]. simpl.
    eexists. split; [reflexivity|]. simpl. repeat split; auto; apply HasPrefix_D.
  - intros frames p. eapply Forall_impl; [apply intakeLoop_Direct|].
    intros msg Hd. simpl in Hd. rewrite Hd. apply HasPrefix_D.
Qed.

Lemma intake_builds_message_witness :
  exists msg,
    value_of (intake (DecodeOK (mkInFrame "message" "D024BE91L" "U1" "hi"))
                     (Decoded (mkUsersInfo (OKBool true) "alice"))
                     (mkSlack "tok" "wss://a" "B1" (Some 3) None ∅)) = Some msg /\
    Direct msg = true /\ FromUserName msg = "alice".
Proof.
  destruct (proj1 intake_builds_message
              (mkInFrame "message" "D024BE91L" "U1" "hi")
              (Decoded (mkUsersInfo (OKBool true) "alice"))
              (mkSlack "tok" "wss://a" "B1" (Some 3) None ∅) eq_refl)
    as (msg & Hv & _ & _ & Hn & _ & _ & _ & Hd).
  exists msg. split; [exact Hv|]. split.
  - apply Hd. now exists "024BE91L".
  - rewrite Hn. reflexivity.
Defined.

(** C5 fails on the code at a handshake reply that decodes but does not
    carry [ok: true]: the [err] stored at lines 107 and 111 is the nil
    error of line 86.  So such a handshake records no error, and wipes
    the error a previous failure left; the session URL stays what it
    was. *)
Theorem handshake_refused_stores_nil p url id :
  err (state_of (handshake (Decoded (mkRtmStart (OKBool false) url id)) p)) = None /\
  err (state_of (handshake (Decoded (mkRtmStart OKOther url id)) p)) = None /\
  wsURL (state_of (handshake (Decoded (mkRtmStart (OKBool false) url id)) p)) = wsURL p.
Proof. unfold handshake. run_m. auto. Qed.

(** The same at a provider that had connected and then lost its socket:
    after the refused handshake the recorded error is gone, and dial goes
    on to dial the URL of the old session. *)
Lemma handshake_refused_then_dial :
  let p := mkSlack "tok" "wss://old" "B1" (Some 3) (Some "EOF") ∅ in
  let r := (handshake (Decoded (mkRtmStart (OKBool false) EmptyString EmptyString)) ;;
            dial (DialOK 4)) p in
  err (state_of r) = None /\ wsConn (state_of r) = Some 4 /\
  In (EvDial "wss://old") (trace_of r).
Proof. vm_compute. intuition. Qed.

(** An attempt that succeeds leaves the recorded error as it is. *)
Lemma success_keeps_err p url id ws :
  url <> EmptyString ->
  err (state_of ((handshake (Decoded (mkRtmStart (OKBool true) url id)) ;;
                  dial (DialOK ws)) p)) = err p.
Proof.
  intros Hurl. apply String.eqb_neq in Hurl.
  unfold handshake, dial. run_m. now rewrite Hurl.
Qed.

(** The two failures the handshake does record. *)
Lemma handshake_failed_sets_err p e :
  err (state_of (handshake (GetFailed e) p)) = Some e /\
  err (state_of (handshake (DecodeFailed e) p)) = Some e.
Proof. unfold handshake. run_m. auto. Qed.

Lemma Slack_err_iff_no_socket tok hs dl :
  err (state_of (Slack tok hs dl)) = None <-> wsConn (state_of (Slack tok hs dl)) <> None.
Proof.
  unfold Slack, handshake, dial. run_m.
  destruct hs as [e|e|[[[]|] url id]]; simpl; try (split; [discriminate | congruence]).
  destruct (String.eqb url EmptyString); simpl; [split; [discriminate | congruence]|].
  destruct dl; simpl; split; congruence.
Qed.

(** The loops are started only on a provider that has a socket. *)
Lemma Slack_loops_have_socket tok hs dl :
  dispatch_started (value_of (Slack tok hs dl)) = true ->
  intake_started (value_of (Slack tok hs dl)) = true /\
  exists ws, wsConn (state_of (Slack tok hs dl)) = Some ws.
Proof.
  unfold Slack, handshake, dial. run_m.
  destruct hs as [e|e|[[[]|] url id]]; simpl; try discriminate.
  destruct (String.eqb url EmptyString); simpl; [discriminate|].
  destruct dl; simpl; [discriminate|]. eauto.
Qed.

(** C6 as the spec words it fails: the handshake of construction times
    out, so there is an error and no socket; the supervisor is started,
    and though by its first period a handshake and a dial would succeed,
    it logs that it cannot reconnect and stops without making either. *)
Lemma failed_construction_is_not_retried :
  let c := Slack "tok" (GetFailed "timeout") (DialOK 3) in
  let t := mkTick (Some "broken pipe")
                  (Decoded (mkRtmStart (OKBool true) "wss://a" "B1")) (DialOK 4) in
  reconnect_started (value_of c) = true /\
  err (state_of c) <> None /\ wsConn (state_of c) = None /\
  reconnect [t; t; t] (state_of c) =
    (Stopped, state_of c, [EvSleep; EvLog "slack: cannot reconnect"]).
Proof. vm_compute. intuition discriminate. Qed.

(** C6, as the code has it.  When construction ends with an error there
    is no socket, and the supervisor, though started, stops in its first
    period: it sleeps, logs that it cannot reconnect, and returns, with
    no handshake and no dial, leaving the provider as it was. *)
Theorem failed_construction_stops_supervisor tok hs dl t ticks :
  err (state_of (Slack tok hs dl)) <> None ->
  reconnect_started (value_of (Slack tok hs dl)) = true /\
  wsConn (state_of (Slack tok hs dl)) = None /\
  reconnect (t :: ticks) (state_of (Slack tok hs dl)) =
    (Stopped, state_of (Slack tok hs dl), [EvSleep; EvLog "slack: cannot reconnect"]).
Proof.
  intros Herr.
  assert (Hws : wsConn (state_of (Slack tok hs dl)) = None).
  { destruct (wsConn (state_of (Slack tok hs dl))) eqn:Hw; [|reflexivity].
    exfalso. apply Herr. apply Slack_err_iff_no_socket. congruence. }
  split; [|split; [exact Hws|]].
  - unfold Slack, handshake, dial in *. run_m.
    destruct hs as [e|e|[[[]|] url id]]; simpl in *; try reflexivity.
    destruct (String.eqb url EmptyString); simpl in *; [reflexivity|].
    destruct dl; simpl in *; reflexivity.
  - simpl. unfold bind, emit, get, ret. rewrite Hws. reflexivity.
Qed.

Lemma failed_construction_stops_supervisor_witness :
  let c := Slack "tok" (Decoded (mkRtmStart (OKBool true) "wss://a" "B1"))
                 (DialFailed "connection refused") in
  err (state_of c) <> None /\
  forall t ticks,
    reconnect (t :: ticks) (state_of c) =
      (Stopped, state_of c, [EvSleep; EvLog "slack: cannot reconnect"]).
Proof.
  cbv zeta.
  assert (H : err (state_of (Slack "tok" (Decoded (mkRtmStart (OKBool true) "wss://a" "B1"))
                                   (DialFailed "connection refused"))) <> None)
    by (vm_compute; discriminate).
  split; [exact H|]. intros t ticks.
  exact (proj2 (proj2 (failed_construction_stops_supervisor _ _ _ t ticks H))).
Defined.

Section DispatchFacts.

Context `{GL : GoLib}.

Lemma dispatch_rendered msg p ws finalMsg :
  wsConn p = Some ws ->
  template_Execute (Message_ msg) ("<@" +:+ ToUserID msg +:+ ">") = Rendered finalMsg ->
  dispatch msg p =
    if String.eqb (strings_TrimSpace finalMsg) EmptyString then Dropped
    else match json_Marshal (frame_of p msg finalMsg) with
         | None => Dropped
         | Some wsMsg =>
             if Nat.ltb (16 * 1024) (String.length wsMsg) then Dropped
             else Wrote ws wsMsg
         end.
Proof. intros Hws Hr. unfold dispatch. now rewrite Hr, Hws. Qed.

(** C3, as the code has it.  For an outbound message whose text
    html/template renders, on a provider that has a socket: the frame is
    written exactly when the rendered text, as it is before
    HTML-unescaping, is not empty after trimming white space, the frame
    encodes, and the encoding is at most 16384 bytes long; otherwise the
    message is dropped and the loop does nothing for it.  What is
    written is the encoding of the frame with type ["message"], the
    bot's own id as user, the message's room as channel, and the
    HTML-unescaped rendered text as text, and the loop then sleeps. *)
Theorem dispatch_writes_iff msg p ws finalMsg :
  wsConn p = Some ws ->
  template_Execute (Message_ msg) ("<@" +:+ ToUserID msg +:+ ">") = Rendered finalMsg ->
  let frame :=
    mkOutFrame "message" (selfID p) (Room msg) (html_UnescapeString finalMsg) in
  (forall ws' wsMsg,
     dispatch msg p = Wrote ws' wsMsg <->
     ws' = ws /\ strings_TrimSpace finalMsg <> EmptyString /\
     json_Marshal frame = Some wsMsg /\ String.length wsMsg <= 16 * 1024) /\
  (dispatch msg p = Dropped \/ exists wsMsg, dispatch msg p = Wrote ws wsMsg) /\
  (dispatch msg p = Dropped -> trace_of (dispatchLoop [msg] p) = []) /\
  (forall wsMsg, dispatch msg p = Wrote ws wsMsg ->
     trace_of (dispatchLoop [msg] p) = [EvWrite ws wsMsg; EvSleep]).
Proof.
  intros Hws Hr. cbv zeta.
  pose proof (dispatch_rendered msg p ws finalMsg Hws Hr) as Hd.
  unfold frame_of in Hd.
  set (frame := mkOutFrame "message" (selfID p) (Room msg) (html_UnescapeString finalMsg)) in *.
  split; [|split; [|split]].
  - intros ws' wsMsg. rewrite Hd.
    destruct (String.eqb_spec (strings_TrimSpace finalMsg) EmptyString) as [He|Hne].
    { split; [discriminate | intros (_ & Hc & _); contradiction]. }
    destruct (json_Marshal frame) as [b|].
    2: { split; [discriminate | intros (_ & _ & Hc & _); discriminate]. }
    destruct (Nat.ltb_spec (16 * 1024) (String.length b)) as [Hlt|Hle].
    { split; [discriminate | intros (_ & _ & [= <-] & Hc); lia]. }
    split.
    + intros [= <- <-]. auto.
    + intros (-> & _ & [= <-] & _). reflexivity.
  - rewrite Hd.
    destruct (String.eqb (strings_TrimSpace finalMsg) EmptyString); [now left|].
    destruct (json_Marshal frame) as [b|]; [|now left].
    destruct (Nat.ltb (16 * 1024) (String.length b)); [now left|].
    right. now exists b.
  - intros Hdrop. simpl. unfold trace_of, bind, get, ret. now rewrite Hdrop.
  - intros wsMsg Hw. simpl. unfold trace_of, bind, get, ret, emit. now rewrite Hw.
Qed.

End DispatchFacts.

Import demo.

Lemma dispatch_writes_iff_witness :
  let msg := mkMessage "C1" EmptyString EmptyString "U1" "alice" "hi {{.User}}" false in
  let p := mkSlack "tok" "wss://a" "B1" (Some 7) None ∅ in
  template_Execute (Message_ msg) ("<@" +:+ ToUserID msg +:+ ">") = Rendered "hi &lt;@U1&gt;" /\
  html_UnescapeString "hi &lt;@U1&gt;" = "hi <@U1>" /\
  exists wsMsg,
    json_Marshal (mkOutFrame "message" "B1" "C1" "hi <@U1>") = Some wsMsg /\
    trace_of (dispatchLoop [msg] p) = [EvWrite 7 wsMsg; EvSleep].
Proof.
  cbv zeta. split; [reflexivity|]. split; [reflexivity|].
  destruct (@dispatch_writes_iff go_lib
              (mkMessage "C1" EmptyString EmptyString "U1" "alice" "hi {{.User}}" false)
              (mkSlack "tok" "wss://a" "B1" (Some 7) None ∅) 7 "hi &lt;@U1&gt;")
    as (_ & _ & _ & Hw).
  - reflexivity.
  - reflexivity.
  - eexists. split; [reflexivity|]. apply Hw. reflexivity.
Defined.

(** C3 as the spec words it fails: the text ["&#32;"] renders to itself,
    which is not empty after trimming, and so the frame is written; but
    the text it carries, the HTML-unescaped one, is a single space, empty
    after trimming. *)
Lemma blank_after_unescaping_is_written :
  let msg := mkMessage "C1" EmptyString EmptyString "U1" "alice" "&#32;" false in
  let p := mkSlack "tok" "wss://a" "B1" (Some 7) None ∅ in
  template_Execute (Message_ msg) ("<@" +:+ ToUserID msg +:+ ">") = Rendered "&#32;" /\
  strings_TrimSpace (html_UnescapeString "&#32;") = EmptyString /\
  exists wsMsg,
    json_Marshal (mkOutFrame "message" "B1" "C1" " ") = Some wsMsg /\
    String.length wsMsg <= 16 * 1024 /\
    dispatch msg p = Wrote 7 wsMsg /\
    trace_of (dispatchLoop [msg] p) = [EvWrite 7 wsMsg; EvSleep].
Proof.
  cbv zeta. split; [reflexivity|]. split; [reflexivity|].
  eexists. split; [reflexivity|]. split; [|split; reflexivity].
  apply Nat.leb_le. vm_compute. reflexivity.
Qed.

End SlackProofs.

(** * Further properties of the dispatcher *)

Module BotExtras.

Import bot BotProofs.


Section MoreFacts.

Context {Memorizer R : Type} `{RP : RuleParser Memorizer R}.

Abbreviation Self := (Self Memorizer R).
Abbreviation Sys := (@Sys Memorizer R).
Abbreviation Task := (@Task Memorizer R).

Implicit Types (b : Self) (s : Sys) (t : Task) (m : Message).




(** The receive loop spawns one task per inbound message, in order of
    arrival, dropping and duplicating none: at any moment the messages of
    the tasks followed by the messages still inbound are the messages that
    arrived; and while the process is alive, the loop scheduled alone
    takes all that is left. *)
Theorem tasks_follow_arrival_order b msgs sched :
  map t_msg (tasks (run sched (init b msgs))) ++ inbox (run sched (init b msgs)) = msgs /\
  (crashed (run sched (init b msgs)) = false ->
   exists n,
     inbox (run (repeat MainRecv n) (run sched (init b msgs))) = [] /\
     map t_msg (tasks (run (repeat MainRecv n) (run sched (init b msgs)))) = msgs).
Proof.
  split.
  - exact (inv_msgs _ _ _ (Inv_reach b msgs sched)).
  - intros Hcr. exists (length (inbox (run sched (init b msgs)))).
    destruct (receive_loop_drains _ _ Hcr eq_refl) as [Hin _].
    split; [exact Hin|].
    pose proof (Inv_run b msgs (repeat MainRecv (length (inbox (run sched (init b msgs)))))
                  _ (Inv_reach b msgs sched)) as HI.
    pose proof (inv_msgs _ _ _ HI) as Hm. rewrite Hin, app_nil_r in Hm. exact Hm.
Qed.

Lemma In_emitted j m (out : list (nat * Message)) :
  In (j, m) out -> In m (emitted j out).
Proof.
  induction out as [|[k m'] out IH]; simpl; [tauto|].
  intros [[= -> ->]|Hin].
  - rewrite Nat.eqb_refl. now left.
  - destruct (Nat.eqb k j); [right|]; now apply IH.
Qed.

(** Nothing reaches the outbound channel that is not an answer to an
    inbound message: every message sent was sent by a task that exists,
    whose message is one of those that arrived, and is one of the messages
    that task's rules (or the help text) produce for it. *)
Theorem every_output_answers_an_inbound_message b msgs sched j m :
  In (j, m) (outbox (run sched (init b msgs))) ->
  exists t,
    tasks (run sched (init b msgs)) !! j = Some t /\
    In (t_msg t) msgs /\
    In m (fst (behaviour b (t_msg t))).
Proof.
  intros Hin.
  pose proof (Inv_reach b msgs sched) as HI.
  pose proof (inv_out _ _ _ HI j m Hin) as Hlt.
  destruct (lookup_lt_is_Some_2 _ _ Hlt) as [t Ht].
  exists t. split; [exact Ht|]. split.
  - rewrite <- (inv_msgs _ _ _ HI). apply in_or_app. left.
    apply in_map. apply list_elem_of_In. eapply list_elem_of_lookup_2. exact Ht.
  - destruct (emitted_prefix _ _ _ _ _ HI Ht) as [ext Hext].
    rewrite Hext. apply in_or_app. left. now apply In_emitted.
Qed.

(** A task that has died has taken the process with it. *)
Lemma died_exec c s :
  (forall i t v, tasks s !! i = Some t -> t_pc t = Died v -> crashed s = true) ->
  forall i t v, tasks (exec c s) !! i = Some t -> t_pc t = Died v ->
                crashed (exec c s) = true.
Proof.
  intros Hd i t v. unfold exec, step.
  destruct (crashed s) eqn:Hcr; [simpl; intros _ _; exact Hcr|].
  assert (Hnone : forall i t v, tasks s !! i = Some t -> t_pc t = Died v -> False).
  { intros i' t' v' Hi Hpc. now pose proof (Hd i' t' v' Hi Hpc). }
  clear Hd.
  destruct c as [|j].
  - destruct (inbox s) as [|m ms]; simpl.
    + intros Hi Hpc. destruct (Hnone i t v Hi Hpc).
    + intros Hi Hpc. apply lookup_snoc_Some in Hi as [[_ Hi]|[_ <-]].
      * destruct (Hnone i t v Hi Hpc).
      * simpl in Hpc. now destruct (is_help (sbot s) m).
  - destruct (tasks s !! j) as [tj|] eqn:Hj;
      [|simpl; intros Hi Hpc; destruct (Hnone i t v Hi Hpc)].
    destruct (step_task j tj s) as [s'|] eqn:Hs;
      [|simpl; intros Hi Hpc; destruct (Hnone i t v Hi Hpc)].
    simpl.
    destruct (step_task_nf _ _ _ _ Hj Hs)
      as (pc' & sent & lg & _ & _ & Ht' & _ & _ & Hc' & _).
    simpl in Ht'. rewrite Ht', Hc', Hcr. intros Hi Hpc.
    apply list_lookup_insert_Some in Hi as [(_ & <- & _)|(_ & Hi)].
    + simpl in Hpc. now rewrite Hpc.
    + destruct (Hnone i t v Hi Hpc).
Qed.

Lemma died_means_crashed sched b msgs i t v :
  tasks (run sched (init b msgs)) !! i = Some t -> t_pc t = Died v ->
  crashed (run sched (init b msgs)) = true.
Proof.
  assert (Hgen : forall sched s,
    (forall i t v, tasks s !! i = Some t -> t_pc t = Died v -> crashed s = true) ->
    forall i t v, tasks (run sched s) !! i = Some t -> t_pc t = Died v ->
                  crashed (run sched s) = true).
  { clear. intros sched. induction sched as [|c sched IH]; intros s Hd; [exact Hd|].
    simpl. apply IH. now apply died_exec. }
  apply Hgen. intros i' t' v' Hi. simpl in Hi. now rewrite lookup_nil in Hi.
Qed.

Lemma help_loop_panic (self : Self) pre rule post hs v : forall acc,
  Forall2 (fun r h => HelpMessage r self = Returned h) pre hs ->
  HelpMessage rule self = Panicked v ->
  help_loop self acc (pre ++ rule :: post) = Panicked v.
Proof.
  intros acc Hpre Hp. revert acc.
  induction Hpre as [|r h pre hs Hr _ IH]; intros acc; simpl.
  - now rewrite Hp.
  - now rewrite Hr.
Qed.

(** The help task has no recover (lines 52-63): when a rule's HelpMessage
    panics on a help request, after the rules before it have returned,
    the task run to its end has died with the panic, has sent no reply,
    and the process is dead: no goroutine, the receive loop included,
    takes another step, so whatever the other tasks had still to send is
    lost. *)
Theorem help_panic_kills_the_process b msgs sched i t pre rule post hs v :
  tasks (run sched (init b msgs)) !! i = Some t ->
  crashed (run sched (init b msgs)) = false ->
  is_help b (t_msg t) = true ->
  rules b = pre ++ rule :: post ->
  Forall2 (fun r h => HelpMessage r b = Returned h) pre hs ->
  HelpMessage rule b = Panicked v ->
  exists n,
    let s' := run (repeat (Run i) n) (run sched (init b msgs)) in
    pc_of i s' = Some (Died v) /\
    emitted i (outbox s') = [] /\
    crashed s' = true /\
    (forall c, step c s' = None) /\
    (forall sched2, run sched2 s' = s').
Proof.
  intros Hi Hcr Hh Hrules Hpre Hp.
  assert (Hbeh : behaviour b (t_msg t) = ([], FCrashed v)).
  { unfold behaviour, help_rest. rewrite Hh, Hrules.
    now rewrite (help_loop_panic b pre rule post hs v _ Hpre Hp). }
  destruct (task_runs_to_end b msgs sched i t Hcr Hi)
    as (n & t' & _ & H1 & H2 & _ & H4 & _).
  cbv zeta in *. rewrite Hbeh in H4. injection H4 as Hout Hfin.
  assert (Hpc : t_pc t' = Died v).
  { destruct (t_pc t'); simpl in *; try contradiction; try discriminate.
    now injection Hfin as <-. }
  assert (Hdead : crashed (run (repeat (Run i) n) (run sched (init b msgs))) = true).
  { rewrite <- run_app in *. exact (died_means_crashed _ b msgs i t' v H1 Hpc). }
  exists n. cbv zeta. split; [|split; [|split; [|split]]].
  - unfold pc_of. now rewrite H1, <- Hpc.
  - now rewrite <- Hout.
  - exact Hdead.
  - intros c. unfold step. now rewrite Hdead.
  - intros sched2. now apply run_crashed.
Qed.



Lemma indicator_sum j n :
  j < n -> list_sum (map (fun i => if Nat.eqb j i then 1 else 0) (seq 0 n)) = 1.
Proof.
  induction n as [|n IH]; intros Hlt; [lia|].
  rewrite seq_S, map_app, list_sum_app. simpl.
  destruct (Nat.eqb_spec j n) as [->|Hne].
  - assert (Hz : forall k, k <= n ->
              list_sum (map (fun i => if Nat.eqb n i then 1 else 0) (seq 0 k)) = 0).
    { induction k as [|k IHk]; intros Hk; [reflexivity|].
      rewrite seq_S, map_app, list_sum_app. simpl.
      destruct (Nat.eqb_spec n k); [lia|]. rewrite IHk by lia. reflexivity. }
    rewrite Hz by lia. reflexivity.
  - rewrite IH by lia. reflexivity.
Qed.

Lemma list_sum_map_add {A} (f g : A -> nat) l :
  list_sum (map (fun x => f x + g x) l) = list_sum (map f l) + list_sum (map g l).
Proof. induction l as [|x l IH]; simpl; lia. Qed.

Lemma outbox_length_by_sender (out : list (nat * Message)) n :
  (forall j m, In (j, m) out -> j < n) ->
  length out = list_sum (map (fun i => length (emitted i out)) (seq 0 n)).
Proof.
  induction out as [|[j m] out IH]; intros Hb.
  - simpl. induction (seq 0 n) as [|x l IHl]; simpl; auto.
  - transitivity (list_sum (map (fun i => if Nat.eqb j i then 1 else 0) (seq 0 n))
                  + list_sum (map (fun i => length (emitted i out)) (seq 0 n))).
    + rewrite indicator_sum by (apply (Hb j m); now left).
      rewrite <- IH by (intros j' m' Hin; apply (Hb j' m'); now right).
      reflexivity.
    + rewrite <- list_sum_map_add. f_equal. apply map_ext. intros i. simpl.
      now destruct (Nat.eqb j i).
Qed.

Lemma map_by_index {A B} (l : list A) (g : nat -> B) (h : A -> B) :
  (forall i x, l !! i = Some x -> g i = h x) ->
  map g (seq 0 (length l)) = map h l.
Proof.
  intros Hgh. apply list_eq. intros i.
  change (map g (seq 0 (length l))) with (g <$> seq 0 (length l)).
  change (map h l) with (h <$> l).
  rewrite !list_lookup_fmap.
  destruct (l !! i) as [x|] eqn:Hi; simpl.
  - rewrite (lookup_seq_lt 0 (length l) i) by (eapply lookup_lt_Some; eauto).
    simpl. f_equal. now apply Hgh.
  - rewrite lookup_seq_ge by (now apply lookup_ge_None). reflexivity.
Qed.

(** Nothing is lost and nothing is sent twice: once the receive loop has
    taken every inbound message and every task has ended, the messages
    on the outbound channel are as many as the rules and the help text
    produce for the inbound messages, taken together. *)
Theorem quiescent_outbox_is_complete b msgs sched :
  inbox (run sched (init b msgs)) = [] ->
  Forall (fun t => terminal (t_pc t)) (tasks (run sched (init b msgs))) ->
  length (outbox (run sched (init b msgs)))
    = list_sum (map (fun m => length (fst (behaviour b m))) msgs).
Proof.
  intros Hin Hterm.
  pose proof (Inv_reach b msgs sched) as HI.
  set (s := run sched (init b msgs)) in *.
  rewrite (outbox_length_by_sender (outbox s) (length (tasks s)) (inv_out _ _ _ HI)).
  pose proof (inv_msgs _ _ _ HI) as Hm. rewrite Hin, app_nil_r in Hm.
  rewrite <- Hm, map_map. f_equal.
  apply map_by_index. intros i t Hi.
  rewrite Forall_lookup in Hterm.
  rewrite (terminal_behaviour _ _ _ _ _ HI Hi (Hterm i t Hi)). reflexivity.
Qed.

End MoreFacts.

Import demo.


Lemma quiescent_outbox_is_complete_witness :
  let b := bender [Echo; Faulty; Twice] in
  let s := run [MainRecv; MainRecv; Run 1; Run 1; Run 1; Run 0; Run 0; Run 0; Run 0; Run 1; Run 1]
               (init b [hello; help_request]) in
  inbox s = [] /\ map t_pc (tasks s) = [Recovered "index out of range"; Done] /\
  length (outbox s) = 2.
Proof.
  cbv zeta. split; [reflexivity|]. split; [reflexivity|].
  rewrite (quiescent_outbox_is_complete (bender [Echo; Faulty; Twice]) [hello; help_request]
             [MainRecv; MainRecv; Run 1; Run 1; Run 1; Run 0; Run 0; Run 0; Run 0; Run 1; Run 1]).
  - reflexivity.
  - reflexivity.
  - repeat constructor.
Defined.

Lemma tasks_follow_arrival_order_witness :
  let s := run [MainRecv; Run 0] (init (bender [Echo]) [hello; help_request; hello]) in
  crashed s = false /\
  exists n,
    inbox (run (repeat MainRecv n) s) = [] /\
    map t_msg (tasks (run (repeat MainRecv n) s)) = [hello; help_request; hello].
Proof.
  cbv zeta. split; [reflexivity|].
  apply (proj2 (tasks_follow_arrival_order (bender [Echo]) [hello; help_request; hello]
                  [MainRecv; Run 0])).
  reflexivity.
Defined.

Lemma every_output_answers_an_inbound_message_witness :
  let s := run [MainRecv; MainRecv; Run 1; Run 1; Run 1]
               (init (bender [Echo; Twice]) [help_request; hello]) in
  In (1, reply_to hello "hello") (outbox s) /\
  exists t, tasks s !! 1 = Some t /\ In (t_msg t) [help_request; hello] /\
            In (reply_to hello "hello") (fst (behaviour (bender [Echo; Twice]) (t_msg t))).
Proof.
  cbv zeta.
  assert (Hin : In (1, reply_to hello "hello")
                   (outbox (run [MainRecv; MainRecv; Run 1; Run 1; Run 1]
                                (init (bender [Echo; Twice]) [help_request; hello]))))
    by (vm_compute; now left).
  split; [exact Hin|].
  exact (every_output_answers_an_inbound_message _ _ _ _ _ Hin).
Defined.

Lemma help_panic_kills_the_process_witness :
  let b := bender [Echo; NoHelp; Twice] in
  let s := run [MainRecv; MainRecv; Run 0; Run 0] (init b [hello; help_request]) in
  tasks s !! 1 = Some (mkTask b help_request HelpInit) /\
  crashed s = false /\
  HelpMessage NoHelp b = Panicked "no help" /\
  exists n,
    pc_of 1 (run (repeat (Run 1) n) s) = Some (Died "no help") /\
    crashed (run (repeat (Run 1) n) s) = true /\
    step (Run 0) (run (repeat (Run 1) n) s) = None.
Proof.
  cbv zeta. split; [reflexivity|]. split; [reflexivity|]. split; [reflexivity|].
  destruct (help_panic_kills_the_process
              (bender [Echo; NoHelp; Twice]) [hello; help_request]
              [MainRecv; MainRecv; Run 0; Run 0] 1
              (mkTask (bender [Echo; NoHelp; Twice]) help_request HelpInit)
              [Echo] NoHelp [Twice] ["echo: repeats your message"] "no help")
    as (n & Hpc & _ & Hcr & Hstep & _).
  - reflexivity.
  - reflexivity.
  - reflexivity.
  - reflexivity.
  - repeat constructor.
  - reflexivity.
  - exists n. split; [exact Hpc|]. split; [exact Hcr|]. apply Hstep.
Defined.

(** *** The start-once guard *)

Lemma calls_while_running calls : forall w,
  processOnce w = OnceRunning ->
  run_ops (map CallProcess calls) w =
    mkRuntime OnceRunning (looping w) (waiting w ++ calls).
Proof.
  induction calls as [|c calls IH]; intros w Hrun; simpl.
  - rewrite app_nil_r, <- Hrun. now destruct w.
  - unfold Process at 1. rewrite Hrun. rewrite IH by reflexivity.
    simpl. now rewrite <- app_assoc.
Qed.

(** While the loop of the first caller runs, Process returns to no one:
    every later call, in the order made, is left waiting inside
    [processOnce.Do].  When the loop ends (the inbound channel is
    closed), all of them are released at once, none of them starts a
    loop, and from then on a call of Process returns at once and changes
    nothing. *)
Theorem later_callers_wait_for_the_loop b calls c :
  run_ops (CallProcess b :: map CallProcess calls) boot
    = mkRuntime OnceRunning [b] calls /\
  run_ops (CallProcess b :: map CallProcess calls ++ [InboundClosed]) boot
    = mkRuntime OnceDone [b] [] /\
  Process c (run_ops (CallProcess b :: map CallProcess calls ++ [InboundClosed]) boot)
    = mkRuntime OnceDone [b] [].
Proof.
  assert (H1 : run_ops (CallProcess b :: map CallProcess calls) boot
               = mkRuntime OnceRunning [b] calls).
  { change (run_ops (CallProcess b :: map CallProcess calls) boot)
      with (run_ops (map CallProcess calls) (Process b boot)).
    now rewrite calls_while_running. }
  assert (H2 : run_ops (CallProcess b :: map CallProcess calls ++ [InboundClosed]) boot
               = mkRuntime OnceDone [b] []).
  { change (CallProcess b :: map CallProcess calls ++ [InboundClosed])
      with ((CallProcess b :: map CallProcess calls) ++ [InboundClosed]).
    now rewrite run_ops_app, H1. }
  split; [exact H1|]. split; [exact H2|]. now rewrite H2.
Qed.

End BotExtras.

(** * Further properties of the Slack provider *)

Module SlackExtras.

Import providers SlackProofs.
Local Open Scope slack_scope.






(** Slack returns a connected provider in one case only: the handshake
    reply has [ok: true] and a non-empty URL and the dial succeeds.  The
    provider then holds the token, the URL and id of the reply, the new
    socket, no error and an empty name cache, after one request and one
    dial.  In every other case an error is recorded. *)
Theorem Slack_connects_in_one_case tok hs dl :
  (forall url id ws,
     hs = Decoded (mkRtmStart (OKBool true) url id) -> url <> EmptyString ->
     dl = DialOK ws ->
     Slack tok hs dl =
       (mkStarted true true true,
        mkSlack tok url id (Some ws) None ∅,
        [EvLog "slack: connecting to HTTP API handshake interface"; EvRtmStart tok;
         EvLog "slack: dialing to HTTP WS rtm interface"; EvDial url])) /\
  (Error (state_of (Slack tok hs dl)) = None ->
   exists url id ws,
     hs = Decoded (mkRtmStart (OKBool true) url id) /\ url <> EmptyString /\
     dl = DialOK ws).
Proof.
  split.
  - intros url id ws -> Hurl ->. apply String.eqb_neq in Hurl.
    unfold Slack, handshake, dial. run_m. now rewrite Hurl.
  - unfold Error, Slack, handshake, dial. run_m.
    destruct hs as [e|e|[[[]|] url id]]; simpl; try discriminate.
    destruct (String.eqb_spec url EmptyString) as [->|Hne]; simpl; [discriminate|].
    destruct dl as [e|ws]; simpl; [discriminate|].
    intros _. now exists url, id, ws.
Qed.

Lemma Slack_connects_in_one_case_witness :
  Error (state_of (Slack "tok" (Decoded (mkRtmStart (OKBool true) "wss://a" "B1"))
                         (DialOK 3))) = None /\
  Error (state_of (Slack "tok" (Decoded (mkRtmStart (OKBool true) EmptyString "B1"))
                         (DialOK 3))) <> None.
Proof.
  split.
  - rewrite (proj1 (Slack_connects_in_one_case "tok"
                      (Decoded (mkRtmStart (OKBool true) "wss://a" "B1")) (DialOK 3))
                   "wss://a" "B1" 3 eq_refl ltac:(discriminate) eq_refl).
    reflexivity.
  - intros Hnone.
    destruct (proj2 (Slack_connects_in_one_case "tok"
                       (Decoded (mkRtmStart (OKBool true) EmptyString "B1")) (DialOK 3))
                    Hnone) as (url & id & ws & [= <- _] & Hne & _).
    now apply Hne.
Defined.

(** What the caller of Slack can rely on: the supervisor is always
    started; the intake and the dispatch loops are started together, and
    exactly when Error() is nil, which is exactly when there is a socket;
    the provider holds the token it was given and an empty name cache. *)
Theorem Error_is_nil_iff_loops_run tok hs dl :
  reconnect_started (value_of (Slack tok hs dl)) = true /\
  intake_started (value_of (Slack tok hs dl))
    = dispatch_started (value_of (Slack tok hs dl)) /\
  (Error (state_of (Slack tok hs dl)) = None <->
   dispatch_started (value_of (Slack tok hs dl)) = true) /\
  (Error (state_of (Slack tok hs dl)) = None <->
   is_Some (wsConn (state_of (Slack tok hs dl)))) /\
  token (state_of (Slack tok hs dl)) = tok /\
  usernames (state_of (Slack tok hs dl)) = ∅.
Proof.
  unfold Error, Slack, handshake, dial. run_m.
  assert (Hn : forall A, ~ @is_Some A None) by (intros A [x Hx]; discriminate).
  destruct hs as [e|e|[[[]|] url id]]; simpl;
    try (repeat split; auto; try discriminate; intros Hs; now apply Hn in Hs).
  destruct (String.eqb url EmptyString); simpl;
    try (repeat split; auto; try discriminate; intros Hs; now apply Hn in Hs).
  destruct dl; simpl;
    repeat split; auto; try discriminate; eauto; intros Hs; now apply Hn in Hs.
Qed.

(** The registered constructor (init): with the token variable unset or
    empty there is no provider and nothing is sent anywhere, only a log
    line; with a token there is always a provider, flagged available
    whether or not it could connect, holding that token, with its
    supervisor started, after exactly one handshake request. *)
Theorem init_provider_needs_only_a_token getenv hs dl :
  (getenv slackEnvVarName = EmptyString ->
   fst (init_provider getenv hs dl) = (None, false) /\
   handshakes (snd (init_provider getenv hs dl)) = 0 /\
   dials (snd (init_provider getenv hs dl)) = 0) /\
  (getenv slackEnvVarName <> EmptyString ->
   exists st p,
     fst (init_provider getenv hs dl) = (Some (st, p), true) /\
     token p = getenv slackEnvVarName /\
     reconnect_started st = true /\
     handshakes (snd (init_provider getenv hs dl)) = 1).
Proof.
  unfold init_provider. split; intros Htok.
  - rewrite Htok. simpl. auto.
  - apply String.eqb_neq in Htok. rewrite Htok. simpl.
    eexists _, _. split; [reflexivity|].
    generalize (getenv slackEnvVarName). intros tok.
    unfold Slack, handshake, dial. run_m.
    destruct hs as [e|e|[[[]|] url id]]; simpl; auto.
    destruct (String.eqb url EmptyString); simpl; auto.
    destruct dl; simpl; auto.
Qed.

Lemma init_provider_needs_only_a_token_witness :
  fst (init_provider (fun _ => EmptyString) (GetFailed "timeout") (DialOK 3)) = (None, false) /\
  exists st p,
    fst (init_provider (fun _ => "xoxb-1") (GetFailed "timeout") (DialOK 3))
      = (Some (st, p), true) /\ token p = "xoxb-1".
Proof.
  split.
  - apply (proj1 (init_provider_needs_only_a_token (fun _ => EmptyString)
                    (GetFailed "timeout") (DialOK 3))). reflexivity.
  - destruct (proj2 (init_provider_needs_only_a_token (fun _ => "xoxb-1")
                       (GetFailed "timeout") (DialOK 3)))
      as (st & p & H1 & H2 & _); [discriminate|].
    exists st, p. split; [exact H1 | exact H2].
Defined.

(** *** The supervisor *)

Lemma reconnect_cons_alive t ticks p ws :
  wsConn p = Some ws -> probe t = None ->
  reconnect (t :: ticks) p =
    (value_of (reconnect ticks p), state_of (reconnect ticks p),
     EvSleep :: EvProbe ws :: trace_of (reconnect ticks p)).
Proof.
  intros Hws Hprobe. cbn [reconnect].
  unfold bind, emit, get, value_of, state_of, trace_of. rewrite Hws, Hprobe.
  destruct (reconnect ticks p) as [[v p'] tr]. reflexivity.
Qed.

Lemma reconnect_cons_failed t ticks p ws e :
  wsConn p = Some ws -> probe t = Some e ->
  reconnect (t :: ticks) p =
    (value_of (reconnect ticks
       (state_of ((handshake (tick_handshake t) ;; dial (tick_dial t)) p))),
     state_of (reconnect ticks
       (state_of ((handshake (tick_handshake t) ;; dial (tick_dial t)) p))),
     EvSleep :: EvProbe ws :: EvLog ("slack: reconnecting (" +:+ e +:+ ")") ::
       trace_of ((handshake (tick_handshake t) ;; dial (tick_dial t)) p) ++
       trace_of (reconnect ticks
         (state_of ((handshake (tick_handshake t) ;; dial (tick_dial t)) p)))).
Proof.
  intros Hws Hprobe. cbn [reconnect].
  unfold bind at 1 2 3 4 5. unfold emit at 1 2 3, get at 1. rewrite Hws, Hprobe.
  unfold bind, value_of, state_of, trace_of.
  destruct (handshake (tick_handshake t) p) as [[u1 p1] e1].
  destruct (dial (tick_dial t) p1) as [[u2 p2] e2].
  simpl. destruct (reconnect ticks p2) as [[v p3] e3]. simpl.
  now rewrite <- app_assoc.
Qed.

Lemma attempt_facts hs dl p :
  token (state_of ((handshake hs ;; dial dl) p)) = token p /\
  usernames (state_of ((handshake hs ;; dial dl) p)) = usernames p /\
  handshakes (trace_of ((handshake hs ;; dial dl) p)) = 1 /\
  dials (trace_of ((handshake hs ;; dial dl) p)) <= 1 /\
  (is_Some (wsConn p) -> is_Some (wsConn (state_of ((handshake hs ;; dial dl) p)))).
Proof.
  unfold handshake, dial. run_m.
  destruct hs as [e|e|[[[]|] url id]]; simpl;
    repeat match goal with
           | |- context [if ?c then _ else _] => destruct c; simpl
           end;
    destruct dl; simpl; repeat split; eauto.
Qed.

Lemma handshakes_app tr1 tr2 : handshakes (tr1 ++ tr2) = handshakes tr1 + handshakes tr2.
Proof.
  induction tr1 as [|e tr1 IH]; simpl; [reflexivity|]. destruct e; simpl; lia.
Qed.

Lemma dials_app tr1 tr2 : dials (tr1 ++ tr2) = dials tr1 + dials tr2.
Proof.
  induction tr1 as [|e tr1 IH]; simpl; [reflexivity|]. destruct e; simpl; lia.
Qed.

(** While every liveness write succeeds the supervisor does nothing but
    sleep and probe the same socket: no handshake, no dial, the provider
    untouched. *)
Theorem reconnect_is_idle_while_alive ticks p ws :
  wsConn p = Some ws ->
  Forall (fun t => probe t = None) ticks ->
  reconnect ticks p =
    (Supervising, p, flat_map (fun _ => [EvSleep; EvProbe ws]) ticks).
Proof.
  intros Hws Hall. induction Hall as [|t ticks Ht _ IH]; [reflexivity|].
  rewrite (reconnect_cons_alive t ticks p ws Hws Ht), IH. reflexivity.
Qed.

Lemma reconnect_is_idle_while_alive_witness :
  let p := mkSlack "tok" "wss://a" "B1" (Some 3) None ∅ in
  let t := mkTick None (GetFailed "timeout") (DialFailed "refused") in
  state_of (reconnect [t; t] p) = p /\
  handshakes (trace_of (reconnect [t; t] p)) = 0.
Proof.
  cbv zeta.
  rewrite (reconnect_is_idle_while_alive
             [mkTick None (GetFailed "timeout") (DialFailed "refused");
              mkTick None (GetFailed "timeout") (DialFailed "refused")]
             (mkSlack "tok" "wss://a" "B1" (Some 3) None ∅) 3 eq_refl
             ltac:(repeat constructor)).
  split; reflexivity.
Defined.

(** Once there is a socket the supervisor never stops and there always
    is a socket: over any periods it makes exactly one handshake request
    per failed liveness write, at most one dial per failed write, and
    keeps the token and the name cache. *)
Theorem reconnect_makes_one_attempt_per_failed_probe ticks : forall p,
  is_Some (wsConn p) ->
  value_of (reconnect ticks p) = Supervising /\
  is_Some (wsConn (state_of (reconnect ticks p))) /\
  handshakes (trace_of (reconnect ticks p)) = failed_probes ticks /\
  dials (trace_of (reconnect ticks p)) <= failed_probes ticks /\
  token (state_of (reconnect ticks p)) = token p /\
  usernames (state_of (reconnect ticks p)) = usernames p.
Proof.
  induction ticks as [|t ticks IH]; intros p Hsome.
  - simpl. repeat split; auto.
  - destruct Hsome as [ws Hws]. simpl failed_probes.
    destruct (probe t) as [e|] eqn:Hprobe.
    + rewrite (reconnect_cons_failed t ticks p ws e Hws Hprobe).
      destruct (attempt_facts (tick_handshake t) (tick_dial t) p)
        as (Htok & Hnames & Hh & Hd & Hs).
      destruct (IH _ (Hs (ex_intro _ ws Hws))) as (H1 & H2 & H3 & H4 & H5 & H6).
      unfold value_of, state_of, trace_of in *. simpl.
      rewrite handshakes_app, dials_app.
      repeat split; auto; try lia; congruence.
    + rewrite (reconnect_cons_alive t ticks p ws Hws Hprobe).
      destruct (IH p (ex_intro _ ws Hws)) as (H1 & H2 & H3 & H4 & H5 & H6).
      unfold value_of, state_of, trace_of in *. simpl.
      repeat split; auto.
Qed.

Lemma reconnect_makes_one_attempt_per_failed_probe_witness :
  let p := mkSlack "tok" "wss://a" "B1" (Some 3) None ∅ in
  let ok := mkTick None (GetFailed "timeout") (DialFailed "refused") in
  let bad := mkTick (Some "broken pipe") (GetFailed "timeout") (DialFailed "refused") in
  is_Some (wsConn p) /\
  handshakes (trace_of (reconnect [ok; bad; ok; bad] p)) = 2.
Proof.
  cbv zeta. split; [now exists 3|].
  destruct (reconnect_makes_one_attempt_per_failed_probe
              [mkTick None (GetFailed "timeout") (DialFailed "refused");
               mkTick (Some "broken pipe") (GetFailed "timeout") (DialFailed "refused");
               mkTick None (GetFailed "timeout") (DialFailed "refused");
               mkTick (Some "broken pipe") (GetFailed "timeout") (DialFailed "refused")]
              (mkSlack "tok" "wss://a" "B1" (Some 3) None ∅))
    as (_ & _ & H & _); [now exists 3 | exact H].
Defined.

(** A reconnect that works swaps in the new session: after a failed
    liveness write, a handshake reply with [ok: true] and a non-empty URL
    and a successful dial, the supervisor goes on with the new socket,
    URL and id.  The error recorded before is still recorded. *)
Theorem reconnect_swaps_in_the_new_socket t ticks p ws e url id ws' :
  wsConn p = Some ws ->
  probe t = Some e ->
  tick_handshake t = Decoded (mkRtmStart (OKBool true) url id) ->
  url <> EmptyString ->
  tick_dial t = DialOK ws' ->
  let p' := mkSlack (token p) url id (Some ws') (err p) (usernames p) in
  reconnect (t :: ticks) p =
    (value_of (reconnect ticks p'), state_of (reconnect ticks p'),
     [EvSleep; EvProbe ws; EvLog ("slack: reconnecting (" +:+ e +:+ ")");
      EvLog "slack: connecting to HTTP API handshake interface"; EvRtmStart (token p);
      EvLog "slack: dialing to HTTP WS rtm interface"; EvDial url]
     ++ trace_of (reconnect ticks p')).
Proof.
  intros Hws Hprobe Hhs Hurl Hdl. cbv zeta.
  rewrite (reconnect_cons_failed t ticks p ws e Hws Hprobe), Hhs, Hdl.
  apply String.eqb_neq in Hurl.
  assert (Ha : (handshake (Decoded (mkRtmStart (OKBool true) url id)) ;; dial (DialOK ws')) p
               = (tt, mkSlack (token p) url id (Some ws') (err p) (usernames p),
                  [EvLog "slack: connecting to HTTP API handshake interface";
                   EvRtmStart (token p);
                   EvLog "slack: dialing to HTTP WS rtm interface"; EvDial url])).
  { unfold handshake, dial. run_m. now rewrite Hurl. }
  rewrite Ha. reflexivity.
Qed.

Lemma reconnect_swaps_in_the_new_socket_witness :
  let p := mkSlack "tok" "wss://old" "B1" (Some 3) (Some "EOF") ∅ in
  let t := mkTick (Some "broken pipe")
                  (Decoded (mkRtmStart (OKBool true) "wss://new" "B2")) (DialOK 4) in
  state_of (reconnect [t] p) = mkSlack "tok" "wss://new" "B2" (Some 4) (Some "EOF") ∅.
Proof.
  cbv zeta.
  rewrite (reconnect_swaps_in_the_new_socket
             (mkTick (Some "broken pipe")
                     (Decoded (mkRtmStart (OKBool true) "wss://new" "B2")) (DialOK 4))
             [] (mkSlack "tok" "wss://old" "B1" (Some 3) (Some "EOF") ∅)
             3 "broken pipe" "wss://new" "B2" 4
             eq_refl eq_refl eq_refl ltac:(discriminate) eq_refl).
  reflexivity.
Defined.

(** A handshake that fails does not stop the dial that follows it: when
    the provider already has a session URL, dial dials that old URL
    whatever went wrong in the handshake, and a socket so obtained is put
    in place under the old URL and id. *)
Theorem failed_handshake_still_dials_the_old_url reply dl p :
  wsURL p <> EmptyString ->
  (forall url id, reply <> Decoded (mkRtmStart (OKBool true) url id)) ->
  In (EvDial (wsURL p)) (trace_of ((handshake reply ;; dial dl) p)) /\
  wsURL (state_of ((handshake reply ;; dial dl) p)) = wsURL p /\
  selfID (state_of ((handshake reply ;; dial dl) p)) = selfID p /\
  (forall ws', dl = DialOK ws' ->
     wsConn (state_of ((handshake reply ;; dial dl) p)) = Some ws').
Proof.
  intros Hurl Hnot. apply String.eqb_neq in Hurl.
  unfold handshake, dial. run_m.
  destruct reply as [e|e|[[[]|] url id]]; simpl; rewrite ?Hurl; simpl.
  3: { exfalso. now apply (Hnot url id). }
  all: destruct dl; simpl; repeat split; auto; try (intros ws' [= <-]; reflexivity);
       try discriminate.
Qed.

Lemma failed_handshake_still_dials_the_old_url_witness :
  let p := mkSlack "tok" "wss://old" "B1" (Some 3) None ∅ in
  wsURL p <> EmptyString /\
  wsConn (state_of ((handshake (GetFailed "timeout") ;; dial (DialOK 4)) p)) = Some 4.
Proof.
  cbv zeta.
  assert (H : wsURL (mkSlack "tok" "wss://old" "B1" (Some 3) None ∅) <> EmptyString)
    by discriminate.
  split; [exact H|].
  destruct (failed_handshake_still_dials_the_old_url (GetFailed "timeout") (DialOK 4)
              (mkSlack "tok" "wss://old" "B1" (Some 3) None ∅) H
              ltac:(discriminate)) as (_ & _ & _ & Hw).
  now apply Hw.
Defined.

(** *** The name cache and the intake loop *)

Lemma resolve_all_state id reply calls p :
  state_of (resolve_all ((id, reply) :: calls) p) =
    state_of (resolve_all calls (state_of (getUserName id reply p))).
Proof.
  simpl. unfold bind at 1. unfold state_of.
  destruct (getUserName id reply p) as [[n p1] e1]. simpl.
  unfold bind at 1. now destruct (resolve_all calls p1) as [[ns p2] e2].
Qed.

Lemma resolve_all_keeps id calls : forall p name,
  usernames p !! id = Some name ->
  usernames (state_of (resolve_all calls p)) !! id = Some name.
Proof.
  induction calls as [|[id' reply] calls IH]; intros p name Hhit; [exact Hhit|].
  rewrite resolve_all_state. apply IH. now apply getUserName_keeps.
Qed.

(** The cache is never refreshed: once an id has a name, that name is
    what getUserName returns for it, with no request, after any run of
    further calls for this or other ids, whatever users.info would now
    answer. *)
Theorem first_cached_name_is_kept id calls p name reply :
  usernames p !! id = Some name ->
  getUserName id reply (state_of (resolve_all calls p))
    = (name, state_of (resolve_all calls p), []).
Proof.
  intros Hhit. apply getUserName_hit. now apply resolve_all_keeps.
Qed.

Lemma first_cached_name_is_kept_witness :
  let p := mkSlack "tok" "wss://a" "B1" (Some 3) None {["U1" := "alice"]} in
  usernames p !! "U1" = Some "alice" /\
  value_of (getUserName "U1" (Decoded (mkUsersInfo (OKBool true) "alicia"))
              (state_of (resolve_all
                 [("U2", Decoded (mkUsersInfo (OKBool true) "bob"));
                  ("U1", Decoded (mkUsersInfo (OKBool true) "alicia"))] p))) = "alice".
Proof.
  cbv zeta.
  assert (H : usernames (mkSlack "tok" "wss://a" "B1" (Some 3) None {["U1" := "alice"]})
                !! "U1" = Some "alice") by reflexivity.
  split; [exact H|].
  rewrite (first_cached_name_is_kept "U1"
             [("U2", Decoded (mkUsersInfo (OKBool true) "bob"));
              ("U1", Decoded (mkUsersInfo (OKBool true) "alicia"))]
             _ "alice" (Decoded (mkUsersInfo (OKBool true) "alicia")) H).
  reflexivity.
Defined.

Lemma getUserName_frame id reply p :
  token (state_of (getUserName id reply p)) = token p /\
  wsURL (state_of (getUserName id reply p)) = wsURL p /\
  selfID (state_of (getUserName id reply p)) = selfID p /\
  wsConn (state_of (getUserName id reply p)) = wsConn p /\
  err (state_of (getUserName id reply p)) = err p /\
  usernames p ⊆ usernames (state_of (getUserName id reply p)).
Proof.
  unfold getUserName. run_m.
  destruct (usernames p !! id) as [n|] eqn:Hc; simpl; [repeat split; auto|].
  destruct reply; simpl; repeat split; auto.
  now apply insert_subseteq.
Qed.

Lemma intake_frame frame reply p :
  token (state_of (intake frame reply p)) = token p /\
  wsURL (state_of (intake frame reply p)) = wsURL p /\
  selfID (state_of (intake frame reply p)) = selfID p /\
  wsConn (state_of (intake frame reply p)) = wsConn p /\
  err (state_of (intake frame reply p)) = err p /\
  usernames p ⊆ usernames (state_of (intake frame reply p)).
Proof.
  unfold intake. destruct frame as [|data]; [unfold state_of, ret; simpl; auto 10|].
  destruct (negb (String.eqb (in_Type data) "message"));
    [unfold state_of, ret; simpl; auto 10|].
  pose proof (getUserName_frame (in_UserID data) reply p) as H.
  unfold state_of, bind in *.
  destruct (getUserName (in_UserID data) reply p) as [[n p1] e1]. exact H.
Qed.

Lemma intakeLoop_state frame reply frames p :
  state_of (intakeLoop ((frame, reply) :: frames) p) =
    state_of (intakeLoop frames (state_of (intake frame reply p))).
Proof.
  simpl. unfold bind at 1. unfold state_of.
  destruct (intake frame reply p) as [[m p1] e1]. simpl.
  unfold bind at 1. now destruct (intakeLoop frames p1) as [[ms p2] e2].
Qed.

(** The intake loop reads and writes nothing of the connection: over any
    stream of frames the token, the session URL, the bot's id, the socket
    and the recorded error are what they were, and the name cache has
    only gained entries. *)
Theorem intakeLoop_only_fills_the_cache frames : forall p,
  token (state_of (intakeLoop frames p)) = token p /\
  wsURL (state_of (intakeLoop frames p)) = wsURL p /\
  selfID (state_of (intakeLoop frames p)) = selfID p /\
  wsConn (state_of (intakeLoop frames p)) = wsConn p /\
  err (state_of (intakeLoop frames p)) = err p /\
  usernames p ⊆ usernames (state_of (intakeLoop frames p)).
Proof.
  induction frames as [|[frame reply] frames IH]; intros p.
  - unfold state_of. simpl. auto 10.
  - rewrite intakeLoop_state.
    destruct (intake_frame frame reply p) as (H1 & H2 & H3 & H4 & H5 & H6).
    destruct (IH (state_of (intake frame reply p))) as (I1 & I2 & I3 & I4 & I5 & I6).
    repeat split; try congruence.
    now transitivity (usernames (state_of (intake frame reply p))).
Qed.

Lemma intake_skip frame reply p :
  accepted frame = None -> intake frame reply p = (None, p, []).
Proof.
  unfold accepted, intake. destruct frame as [|data]; [reflexivity|].
  destruct (String.eqb (in_Type data) "message"); [discriminate | reflexivity].
Qed.

Lemma intake_accept frame data reply p :
  accepted frame = Some data ->
  exists msg, value_of (intake frame reply p) = Some msg /\
              Room msg = in_Channel data /\ FromUserID msg = in_UserID data /\
              Message_ msg = in_Text data.
Proof.
  unfold accepted, intake. destruct frame as [|d]; [discriminate|].
  destruct (String.eqb (in_Type d) "message"); [|discriminate].
  intros [= <-]. simpl. unfold value_of, bind.
  destruct (getUserName (in_UserID d) reply p) as [[n p1] e1]. simpl. eauto.
Qed.

(** The intake loop hands on one message per accepted frame, in the order
    of the frames, with the frame's channel, user and text; a frame that
    does not decode or whose type is not ["message"] is skipped without a
    lookup and without any change to the provider. *)
Theorem intakeLoop_keeps_the_order_of_frames :
  (forall frame reply p, accepted frame = None -> intake frame reply p = (None, p, [])) /\
  (forall frames p,
     map (fun m => (Room m, FromUserID m, Message_ m)) (value_of (intakeLoop frames p)) =
     map (fun d => (in_Channel d, in_UserID d, in_Text d))
         (omap (fun fr => accepted (fst fr)) frames)).
Proof.
  split; [exact intake_skip|].
  induction frames as [|[frame reply] frames IH]; intros p; [reflexivity|].
  simpl. unfold bind at 1.
  destruct (accepted frame) as [data|] eqn:Hacc.
  - destruct (intake_accept frame data reply p Hacc) as (msg & Hv & H1 & H2 & H3).
    destruct (intake frame reply p) as [[m p1] e1]. unfold bind at 1.
    specialize (IH p1).
    destruct (intakeLoop frames p1) as [[ms p2] e2].
    unfold value_of in *. simpl in *. subst m. simpl. now rewrite IH, H1, H2, H3.
  - rewrite (intake_skip frame reply p Hacc). unfold bind at 1.
    specialize (IH p).
    destruct (intakeLoop frames p) as [[ms p2] e2].
    unfold value_of in *. simpl in *. exact IH.
Qed.

Lemma intakeLoop_keeps_the_order_of_frames_witness :
  let p := mkSlack "tok" "wss://a" "B1" (Some 3) None ∅ in
  accepted (DecodeOK (mkInFrame "hello" EmptyString EmptyString EmptyString)) = None /\
  intake (DecodeOK (mkInFrame "hello" EmptyString EmptyString EmptyString))
         (GetFailed "timeout") p = (None, p, []).
Proof.
  cbv zeta. split; [reflexivity|].
  apply (proj1 intakeLoop_keeps_the_order_of_frames). reflexivity.
Defined.

(** *** The dispatch loop *)

Section DispatchLoopFacts.

Context `{GL : GoLib}.

Lemma dispatchLoop_cons msg out p :
  dispatchLoop (msg :: out) p =
    match dispatch msg p with
    | Dropped => dispatchLoop out p
    | Wrote ws wsMsg =>
        (value_of (dispatchLoop out p), state_of (dispatchLoop out p),
         EvWrite ws wsMsg :: EvSleep :: trace_of (dispatchLoop out p))
    | DispatchPanic v => (tt, p, [EvLog ("panic: " +:+ v)])
    end.
Proof.
  cbn [dispatchLoop]. unfold bind at 1. unfold get at 1. simpl.
  destruct (dispatch msg p) as [|ws wsMsg|v].
  - destruct (dispatchLoop out p) as [[u p'] tr]. reflexivity.
  - unfold bind, emit, value_of, state_of, trace_of.
    destruct (dispatchLoop out p) as [[u p'] tr]. reflexivity.
  - reflexivity.
Qed.

(** As long as no outbound text makes the loop panic, the dispatch loop
    goes through the messages in the order it receives them: for each it
    either writes one frame and then sleeps, or does nothing; and it
    leaves the provider as it was. *)
Theorem dispatchLoop_writes_in_order out p :
  Forall (fun msg => forall v, dispatch msg p <> DispatchPanic v) out ->
  dispatchLoop out p =
    (tt, p,
     flat_map (fun msg => match dispatch msg p with
                          | Wrote ws wsMsg => [EvWrite ws wsMsg; EvSleep]
                          | _ => []
                          end) out).
Proof.
  induction 1 as [|msg out Hmsg _ IH]; [reflexivity|].
  rewrite dispatchLoop_cons, IH. simpl.
  destruct (dispatch msg p) as [|ws wsMsg|v]; try reflexivity.
  now destruct (Hmsg v).
Qed.

(** One outbound text that html/template cannot parse ends the dispatch
    loop: the messages before it are handled as usual, the panic of
    template.Must is all that follows, and nothing queued after it is
    ever written, whatever it is. *)
Theorem dispatchLoop_dies_on_a_bad_template pre msg post p v :
  Forall (fun msg => forall v, dispatch msg p <> DispatchPanic v) pre ->
  template_Execute (Message_ msg) ("<@" +:+ ToUserID msg +:+ ">") = ParsePanic v ->
  dispatchLoop (pre ++ msg :: post) p =
    (tt, p,
     flat_map (fun msg => match dispatch msg p with
                          | Wrote ws wsMsg => [EvWrite ws wsMsg; EvSleep]
                          | _ => []
                          end) pre
     ++ [EvLog ("panic: " +:+ v)]).
Proof.
  intros Hpre Hbad.
  assert (Hd : dispatch msg p = DispatchPanic v) by (unfold dispatch; now rewrite Hbad).
  induction Hpre as [|m pre Hm _ IH]; simpl app.
  - rewrite dispatchLoop_cons, Hd. reflexivity.
  - rewrite dispatchLoop_cons, IH. simpl.
    destruct (dispatch m p) as [|ws wsMsg|v']; try reflexivity.
    now destruct (Hm v').
Qed.

End DispatchLoopFacts.

Import demo.

Lemma dispatchLoop_writes_in_order_witness :
  let p := mkSlack "tok" "wss://a" "B1" (Some 7) None ∅ in
  let m1 := mkMessage "C1" EmptyString EmptyString "U1" "alice" "one" false in
  let m2 := mkMessage "C1" EmptyString EmptyString "U1" "alice" "  " false in
  let m3 := mkMessage "C2" EmptyString EmptyString "U2" "bob" "two" false in
  exists b1 b3,
    dispatch m1 p = Wrote 7 b1 /\ dispatch m2 p = Dropped /\ dispatch m3 p = Wrote 7 b3 /\
    trace_of (dispatchLoop [m1; m2; m3] p)
      = [EvWrite 7 b1; EvSleep; EvWrite 7 b3; EvSleep].
Proof.
  cbv zeta. eexists _, _.
  split; [reflexivity|]. split; [reflexivity|]. split; [reflexivity|].
  rewrite (@dispatchLoop_writes_in_order go_lib).
  - reflexivity.
  - repeat constructor; intros v; discriminate.
Defined.

Lemma dispatchLoop_dies_on_a_bad_template_witness :
  let p := mkSlack "tok" "wss://a" "B1" (Some 7) None ∅ in
  let m1 := mkMessage "C1" EmptyString EmptyString "U1" "alice" "one" false in
  let bad := mkMessage "C1" EmptyString EmptyString "U1" "alice" "hi {{" false in
  template_Execute (Message_ bad) ("<@" +:+ ToUserID bad +:+ ">")
    = ParsePanic "template: tmpl:1: unexpected action" /\
  exists b1,
    trace_of (dispatchLoop [m1; bad; m1; m1] p)
      = [EvWrite 7 b1; EvSleep; EvLog "panic: template: tmpl:1: unexpected action"].
Proof.
  cbv zeta. split; [reflexivity|]. eexists.
  rewrite (@dispatchLoop_dies_on_a_bad_template go_lib
             [mkMessage "C1" EmptyString EmptyString "U1" "alice" "one" false]
             (mkMessage "C1" EmptyString EmptyString "U1" "alice" "hi {{" false)
             [mkMessage "C1" EmptyString EmptyString "U1" "alice" "one" false;
              mkMessage "C1" EmptyString EmptyString "U1" "alice" "one" false]
             (mkSlack "tok" "wss://a" "B1" (Some 7) None ∅)
             "template: tmpl:1: unexpected action").
  - reflexivity.
  - repeat constructor; intros v; discriminate.
  - reflexivity.
Defined.

End SlackExtras.
